(** * Hyundai spares admin panel: the Support and Products screens

    A shallow embedding of the event handlers and derived values of
    [src/pages/admin/Support.tsx] and of the Products screen, with the
    properties their specification states about them.

    JavaScript strings are modelled by [string]; a character stands for the
    UTF-16 code unit of the same number, so the model covers the strings
    whose code units lie in U+0000..U+00FF.  Non-negative integral numbers
    (file sizes, clock readings, lengths) are modelled by [N]. *)

From Stdlib Require Import Bool Arith NArith List Ascii String Lia.
From Stdlib Require Import Numbers.DecimalString.
Import ListNotations.

Local Open Scope string_scope.
Local Open Scope list_scope.

(** ** The JavaScript primitives the two screens use *)

Module JS.

(** [String.prototype.startsWith]: [startsWith s p] is [s.startsWith(p)]. *)
Fixpoint startsWith (s p : string) {struct p} : bool :=
  match p, s with
  | EmptyString, _ => true
  | String _ _, EmptyString => false
  | String b p', String a s' => Ascii.eqb a b && startsWith s' p'
  end.

(** [String.prototype.includes]: [includes s t] is [s.includes(t)], the
    search for [t] at every position of [s] from the left. *)
Fixpoint includes (s t : string) : bool :=
  startsWith s t ||
  match s with
  | EmptyString => false
  | String _ s' => includes s' t
  end.

(** The code units below U+0100 that [String.prototype.trim] strips: TAB,
    LF, VT, FF, CR, SPACE and NO-BREAK SPACE. *)
Definition isWhiteSpace (a : ascii) : bool :=
  let c := N_of_ascii a in
  ((9 <=? c) && (c <=? 13) || (c =? 32) || (c =? 160))%N.

Fixpoint trimStart (s : string) : string :=
  match s with
  | EmptyString => EmptyString
  | String a s' => if isWhiteSpace a then trimStart s' else s
  end.

(** [trimEnd] keeps a character when it is not white space or when something
    is left of the text after it. *)
Fixpoint trimEnd (s : string) : string :=
  match s with
  | EmptyString => EmptyString
  | String a s' =>
      match trimEnd s' with
      | EmptyString => if isWhiteSpace a then EmptyString else String a EmptyString
      | r => String a r
      end
  end.

Definition trim (s : string) : string := trimEnd (trimStart s).

(** [String.prototype.toLowerCase] on one code unit below U+0100: the
    letters A-Z and the Latin-1 capitals U+00C0..U+00DE (U+00D7, the
    multiplication sign, apart) move up by 32. *)
Definition toLowerCaseChar (a : ascii) : ascii :=
  let c := N_of_ascii a in
  if ((65 <=? c) && (c <=? 90) ||
      (192 <=? c) && (c <=? 222) && negb (c =? 215))%N
  then ascii_of_N (c + 32) else a.

Fixpoint toLowerCase (s : string) : string :=
  match s with
  | EmptyString => EmptyString
  | String a s' => String (toLowerCaseChar a) (toLowerCase s')
  end.

(** [Number::toString] of a non-negative integer below 10^21: its decimal
    digits. *)
Definition decimal (n : N) : string := NilZero.string_of_uint (N.to_uint n).

(** *** Numbers

    The numbers the screens format are non-negative integers and their
    quotients by 1024 and by 1048576.  Dividing a binary floating-point
    number by a power of two is exact, so a quotient is kept as its
    numerator and its denominator and nothing is rounded before printing. *)

(** The distance from [x] to the next double above it, for [x] at least
    2^52. *)
Definition ulp (x : N) : N := 2 ^ (N.log2 x - 52).

(** The integers that are doubles: all of them up to 2^53, the multiples of
    [ulp x] from there on. *)
Definition isNumber (x : N) : bool := (x mod ulp x =? 0)%N.

(** [roundsTo x v]: the integer [v] rounds to the double [x] (nearest, ties
    to the even significand); [x] is at least 2^53.  Just below a power of
    two the doubles are twice as dense. *)
Definition roundsTo (x v : N) : bool :=
  let u := ulp x in
  let even := N.even (x / u) in
  if (v <? x)%N then
    let below := if (x =? 2 ^ N.log2 x)%N then (u / 2)%N else u in
    if even then (2 * (x - v) <=? below)%N else (2 * (x - v) <? below)%N
  else
    if even then (2 * (v - x) <=? u)%N else (2 * (v - x) <? u)%N.

(** The digits [s] and the power of ten [p] of [Number::toString]: the
    fewest digits [s] for which [s * 10^p] is read back as [x], the nearest
    to [x] of the two candidates when both are. *)
Fixpoint shortestDigits (x : N) (p : nat) : N * nat :=
  let w := (10 ^ N.of_nat p)%N in
  let lo := (x / w)%N in
  let hi := (lo + 1)%N in
  let oklo := (0 <? lo)%N && roundsTo x (lo * w) in
  let okhi := roundsTo x (hi * w) in
  match p with
  | O => (x, O)
  | S p' =>
      if oklo && okhi then
        if (x - lo * w <=? hi * w - x)%N then (lo, p) else (hi, p)
      else if oklo then (lo, p)
      else if okhi then (hi, p)
      else shortestDigits x p'
  end.

(** [Number::toString] of an integral double from 10^21 on, where the
    notation is the exponential one: first digit, the other digits behind a
    point when there are any, then the exponent. *)
Definition toStringExponential (x : N) : string :=
  let (s, p) := shortestDigits x (String.length (decimal x)) in
  let ds := decimal s in
  let e := decimal (N.of_nat (String.length ds + p - 1)) in
  match ds with
  | EmptyString => EmptyString
  | String d EmptyString => String d ("e+" ++ e)
  | String d ds' => String d ("." ++ ds' ++ "e+" ++ e)
  end.

(** The integer [n] for which [n / 10] is nearest to [num / den], the larger
    one when two are as near. *)
Definition nearestTenths (num den : N) : N := ((20 * num + den) / (2 * den))%N.

(** [Number.prototype.toFixed(1)] of [num / den]: from 10^21 on the result
    is that of [Number::toString]; below, the digits of the nearest number
    of tenths with a point before the last one. *)
Definition toFixed1 (num den : N) : string :=
  if (10 ^ 21 * den <=? num)%N then toStringExponential (num / den)
  else
    let n := nearestTenths num den in
    decimal (n / 10) ++ "." ++ decimal (n mod 10).

End JS.

(** ** Notifications and the browser

    A handler runs against the browser: it reads the clock and the random
    generator, asks for object URLs, shows toasts ([sonner]) and writes to
    the hidden file input.  The values the browser hands out are not
    determined by the program; each source is the sequence of its successive
    answers, and the world counts how many were consumed. *)

Inductive Toast : Type :=
  | toast_error (text : string)
  | toast_success (text : string).

Record Browser : Type := {
  dateNow : nat -> N;              (* Date.now(), reading after reading *)
  randomId : nat -> string;        (* Math.random().toString(36).substr(2, 9) *)
  objectURL : nat -> string;       (* URL.createObjectURL, call after call *)
  toISOString : N -> string        (* Date.prototype.toISOString *)
}.

Record World : Type := {
  clockReads : nat;
  randomReads : nat;
  urlsCreated : nat;
  toasts : list Toast;             (* shown so far, oldest first *)
  fileInput : option string        (* fileInputRef.current and its value *)
}.

(** The handlers are written in the state monad over the world. *)
Definition M (A : Type) : Type := World -> A * World.

Definition ret {A : Type} (a : A) : M A := fun w => (a, w).

Definition bind {A B : Type} (c : M A) (k : A -> M B) : M B :=
  fun w => let (a, w') := c w in k a w'.

Declare Scope handler_scope.
Delimit Scope handler_scope with handler.
Notation "x <- c ;; k" := (bind c (fun x => k))
  (at level 61, c at next level, right associativity) : handler_scope.
Notation "c ;; k" := (bind c (fun _ => k))
  (at level 61, right associativity) : handler_scope.

Definition show (t : Toast) : M unit :=
  fun w => (tt, {| clockReads := clockReads w; randomReads := randomReads w;
                   urlsCreated := urlsCreated w; toasts := toasts w ++ [t];
                   fileInput := fileInput w |}).

Definition Date_now (b : Browser) : M N :=
  fun w => (dateNow b (clockReads w),
            {| clockReads := S (clockReads w); randomReads := randomReads w;
               urlsCreated := urlsCreated w; toasts := toasts w;
               fileInput := fileInput w |}).

Definition Math_random_id (b : Browser) : M string :=
  fun w => (randomId b (randomReads w),
            {| clockReads := clockReads w; randomReads := S (randomReads w);
               urlsCreated := urlsCreated w; toasts := toasts w;
               fileInput := fileInput w |}).

Definition createObjectURL (b : Browser) : M string :=
  fun w => (objectURL b (urlsCreated w),
            {| clockReads := clockReads w; randomReads := randomReads w;
               urlsCreated := S (urlsCreated w); toasts := toasts w;
               fileInput := fileInput w |}).

(** [if (fileInputRef.current) fileInputRef.current.value = ''] *)
Definition resetFileInput : M unit :=
  fun w => (tt, {| clockReads := clockReads w; randomReads := randomReads w;
                   urlsCreated := urlsCreated w; toasts := toasts w;
                   fileInput := match fileInput w with
                                | Some _ => Some ""
                                | None => None
                                end |}).

(** ** The Support screen *)

Module Support.

Local Open Scope handler_scope.

Inductive FileType : Type := image | document | audio | other.

Record Attachment : Type := {
  att_id : string;
  att_name : string;
  att_type : FileType;
  att_url : string;
  att_size : string
}.

Record MessageWithAttachment : Type := {
  msg_id : string;
  msg_sender : string;
  msg_text : string;
  msg_timestamp : string;
  msg_attachments : option (list Attachment)   (* attachments?: undefined is None *)
}.

(** The part of a DOM [File] the screen reads. *)
Record File : Type := {
  file_name : string;
  file_type : string;     (* the MIME type *)
  file_size : N           (* in bytes *)
}.

(** Modelled from the spec: the chat record of the admin state provider
    ([AdminContext], which is not among the sources): id, customerName,
    lastMessage, lastMessageTime, unreadCount, status and the ordered
    messages. *)
Record SupportChat : Type := {
  chat_id : string;
  customerName : string;
  lastMessage : string;
  lastMessageTime : string;
  unreadCount : N;
  chat_status : string;
  messages : list MessageWithAttachment
}.

(** The component state ([useState]). *)
Record State : Type := {
  selectedChat : option SupportChat;     (* chats[0] at first: undefined when there is none *)
  message : string;
  searchTerm : string;
  attachments : list Attachment;
  localMessages : list MessageWithAttachment;
  showChatList : bool
}.

Definition setAttachments (f : list Attachment -> list Attachment) (st : State) : State :=
  {| selectedChat := selectedChat st; message := message st;
     searchTerm := searchTerm st; attachments := f (attachments st);
     localMessages := localMessages st; showChatList := showChatList st |}.

Definition setLocalMessages (f : list MessageWithAttachment -> list MessageWithAttachment)
    (st : State) : State :=
  {| selectedChat := selectedChat st; message := message st;
     searchTerm := searchTerm st; attachments := attachments st;
     localMessages := f (localMessages st); showChatList := showChatList st |}.

Definition setMessage (m : string) (st : State) : State :=
  {| selectedChat := selectedChat st; message := m;
     searchTerm := searchTerm st; attachments := attachments st;
     localMessages := localMessages st; showChatList := showChatList st |}.

Definition getFileType (file : File) : FileType :=
  if JS.startsWith (file_type file) "image/" then image
  else if JS.startsWith (file_type file) "audio/" then audio
  else if JS.includes (file_type file) "pdf"
          || JS.includes (file_type file) "document"
          || JS.includes (file_type file) "text" then document
  else other.

Definition formatFileSize (bytes : N) : string :=
  if (bytes <? 1024)%N then JS.decimal bytes ++ " B"
  else if (bytes <? 1024 * 1024)%N then JS.toFixed1 bytes 1024 ++ " KB"
  else JS.toFixed1 bytes (1024 * 1024) ++ " MB".

Section Handlers.

Variable browser : Browser.

(** The body of the [forEach] callback of [handleFileSelect], on the
    [newAttachments] collected so far. *)
Definition attachFile (file : File) (newAttachments : list Attachment)
    : M (list Attachment) :=
  if (10 * 1024 * 1024 <? file_size file)%N then
    show (toast_error (file_name file ++ " is too large. Max file size is 10MB.")) ;;
    ret newAttachments
  else
    now <- Date_now browser ;;
    rnd <- Math_random_id browser ;;
    url <- createObjectURL browser ;;
    ret (newAttachments ++
         [ {| att_id := JS.decimal now ++ rnd;
              att_name := file_name file;
              att_type := getFileType file;
              att_url := url;
              att_size := formatFileSize (file_size file) |} ]).

Fixpoint forEachFile (files : list File) (newAttachments : list Attachment)
    : M (list Attachment) :=
  match files with
  | [] => ret newAttachments
  | file :: rest =>
      newAttachments' <- attachFile file newAttachments ;;
      forEachFile rest newAttachments'
  end.

(** [files] is [event.target.files]: [None] is the null the handler returns
    on. *)
Definition handleFileSelect (files : option (list File)) (st : State) : M State :=
  match files with
  | None => ret st
  | Some files =>
      newAttachments <- forEachFile files [] ;;
      let st' := setAttachments (fun prev => prev ++ newAttachments) st in
      show (toast_success
              (JS.decimal (N.of_nat (List.length newAttachments)) ++ " file(s) attached")) ;;
      resetFileInput ;;
      ret st'
  end.

Definition removeAttachment (id : string) (st : State) : State :=
  setAttachments (filter (fun a => negb (String.eqb (att_id a) id))) st.

Definition handleSendMessage (st : State) : M State :=
  if String.eqb (JS.trim (message st)) "" && (List.length (attachments st) =? 0)%nat then ret st
  else
    id <- Date_now browser ;;
    stamp <- Date_now browser ;;
    let newMessage :=
      {| msg_id := JS.decimal id;
         msg_sender := "admin";
         msg_text := message st;
         msg_timestamp := toISOString browser stamp;
         msg_attachments := if (0 <? List.length (attachments st))%nat
                            then Some (attachments st) else None |} in
    let st1 := setLocalMessages (fun prev => prev ++ [newMessage]) st in
    let st2 := setMessage "" st1 in
    let st3 := setAttachments (fun _ => []) st2 in
    show (toast_success "Message sent") ;;
    ret st3.

End Handlers.

(** [{ ...m, attachments: undefined }] *)
Definition withoutAttachments (m : MessageWithAttachment) : MessageWithAttachment :=
  {| msg_id := msg_id m; msg_sender := msg_sender m; msg_text := msg_text m;
     msg_timestamp := msg_timestamp m; msg_attachments := None |}.

(** [selectedChat?.id === chats[0]?.id]: an absent chat has the id
    [undefined], which is equal to itself only. *)
Definition sameId (a b : option SupportChat) : bool :=
  match a, b with
  | Some x, Some y => String.eqb (chat_id x) (chat_id y)
  | None, None => true
  | _, _ => false
  end.

Definition allMessages (chats : list SupportChat) (st : State)
    : list MessageWithAttachment :=
  map withoutAttachments
      (match selectedChat st with Some c => messages c | None => [] end)
  ++ filter (fun _ => sameId (selectedChat st) (hd_error chats)) (localMessages st).

End Support.

(** ** The Products screen *)

Module Products.

Local Open Scope handler_scope.

(** Modelled from the spec: the product record of the admin state provider
    ([AdminContext], which is not among the sources). *)
Record Product : Type := {
  id : string;
  name : string;
  partNumber : string;
  category : string;
  model : string;
  price : N;
  stock : N;
  status : string;
  images : list string;
  supplier : string
}.

(** The component state ([useState]). *)
Record ScreenState : Type := {
  searchTerm : string;
  categoryFilter : string;       (* 'all' at first *)
  imageUrls : list string        (* [''] at first *)
}.

Definition initialState : ScreenState :=
  {| searchTerm := ""; categoryFilter := "all"; imageUrls := [""] |}.

Definition setImageUrls (urls : list string) (st : ScreenState) : ScreenState :=
  {| searchTerm := searchTerm st; categoryFilter := categoryFilter st;
     imageUrls := urls |}.

Definition matchesSearch (searchTerm : string) (product : Product) : bool :=
  JS.includes (JS.toLowerCase (name product)) (JS.toLowerCase searchTerm)
  || JS.includes (JS.toLowerCase (partNumber product)) (JS.toLowerCase searchTerm)
  || JS.includes (JS.toLowerCase (model product)) (JS.toLowerCase searchTerm).

Definition matchesCategory (categoryFilter : string) (product : Product) : bool :=
  String.eqb categoryFilter "all" || String.eqb (category product) categoryFilter.

Definition filteredProducts (products : list Product)
    (searchTerm categoryFilter : string) : list Product :=
  filter (fun product =>
            matchesSearch searchTerm product && matchesCategory categoryFilter product)
         products.

(** Modelled from the spec: [deleteProduct] of the admin state provider,
    which removes the record with the matching id. *)
Definition deleteProduct (products : list Product) (id' : string) : list Product :=
  filter (fun p => negb (String.eqb (id p) id')) products.

(** [confirmed] is the answer of [window.confirm]. *)
Definition handleDelete (confirmed : bool) (id' name' : string)
    (products : list Product) : M (list Product) :=
  if confirmed then
    show (toast_success "Product deleted successfully") ;;
    ret (deleteProduct products id')
  else ret products.

Definition addImageUrl (imageUrls : list string) : list string :=
  if (List.length imageUrls <? 10)%nat then imageUrls ++ [""] else imageUrls.

(** [Array.prototype.filter] with the index the callback receives; [i] is
    the index of the head. *)
Fixpoint filterWithIndex {A : Type} (f : A -> nat -> bool) (i : nat) (l : list A)
    : list A :=
  match l with
  | [] => []
  | x :: l' =>
      if f x i then x :: filterWithIndex f (S i) l' else filterWithIndex f (S i) l'
  end.

Definition removeImageUrl (index : nat) (imageUrls : list string) : list string :=
  if (1 <? List.length imageUrls)%nat
  then filterWithIndex (fun _ i => negb (i =? index)%nat) 0 imageUrls
  else imageUrls.

(** The array after [newUrls[index] = value].  An index of the array
    replaces the entry there.  An index past the end makes JavaScript grow
    the array to [index + 1] entries: the old ones, then [index - length]
    empty slots, then the value; that array is no list of strings any more. *)
Inductive Written : Type :=
  | InRange (newUrls : list string)
  | PastEnd (oldUrls : list string) (emptySlots : nat) (value : string).

Definition writtenLength (w : Written) : nat :=
  match w with
  | InRange newUrls => List.length newUrls
  | PastEnd oldUrls emptySlots _ => List.length oldUrls + emptySlots + 1
  end.

Fixpoint replaceAt (index : nat) (value : string) (l : list string) : list string :=
  match l, index with
  | [], _ => []
  | _ :: l', O => value :: l'
  | x :: l', S index' => x :: replaceAt index' value l'
  end.

Definition updateImageUrl (index : nat) (value : string) (imageUrls : list string)
    : Written :=
  if (index <? List.length imageUrls)%nat
  then InRange (replaceAt index value imageUrls)
  else PastEnd imageUrls (index - List.length imageUrls) value.

(** [products] is the collection of the admin state provider; a handler
    returns it next to the component state. *)
Definition handleAddProduct (products : list Product) (st : ScreenState)
    : M (list Product * ScreenState) :=
  let validUrls := filter (fun url => negb (String.eqb (JS.trim url) "")) (imageUrls st) in
  if (List.length validUrls =? 0)%nat then
    show (toast_error "Please add at least one product image") ;;
    ret (products, st)
  else
    show (toast_success "Product added successfully") ;;
    ret (products, setImageUrls [""] st).

(** One interaction with the image-URL part of the add-product dialog.  The
    inputs and the remove buttons are rendered from the list, one row for
    each of its indices, so the index of an update or of a removal is an
    index of the list the handler works on. *)
Inductive step (urls : list string) : list string -> Prop :=
  | step_add : step urls (addImageUrl urls)
  | step_remove (index : nat) :
      index < List.length urls -> step urls (removeImageUrl index urls)
  | step_update (index : nat) (value : string) (newUrls : list string) :
      index < List.length urls ->
      updateImageUrl index value urls = InRange newUrls ->
      step urls newUrls
  | step_submit (products : list Product) (st : ScreenState) (w : World) :
      imageUrls st = urls ->
      step urls (imageUrls (snd (fst (handleAddProduct products st w)))).

(** The lists the dialog can hold, from the initial [['']]. *)
Inductive reachable : list string -> Prop :=
  | reach_init : reachable [""]
  | reach_step (urls urls' : list string) :
      reachable urls -> step urls urls' -> reachable urls'.

End Products.

(** ** The Support screen: the chat list and the send controls *)

Module SupportView.

Import Support.

Local Open Scope handler_scope.

Definition setSelectedChat (chat : option SupportChat) (st : State) : State :=
  {| selectedChat := chat; message := message st;
     searchTerm := searchTerm st; attachments := attachments st;
     localMessages := localMessages st; showChatList := showChatList st |}.

Definition setShowChatList (shown : bool) (st : State) : State :=
  {| selectedChat := selectedChat st; message := message st;
     searchTerm := searchTerm st; attachments := attachments st;
     localMessages := localMessages st; showChatList := shown |}.

Definition filteredChats (chats : list SupportChat) (st : State) : list SupportChat :=
  filter (fun chat =>
            JS.includes (JS.toLowerCase (customerName chat))
                        (JS.toLowerCase (searchTerm st)))
         chats.

Definition handleSelectChat (chat : option SupportChat) (st : State) : State :=
  setShowChatList false (setSelectedChat chat st).

Definition handleBackToList (st : State) : State := setShowChatList true st.

(** The [disabled] attribute of the send button. *)
Definition sendDisabled (st : State) : bool :=
  String.eqb (JS.trim (message st)) "" && (List.length (attachments st) =? 0)%nat.

(** The [onKeyDown] handler of the message input: [key] is [e.key],
    [shiftKey] is [e.shiftKey]. *)
Definition handleKeyDown (browser : Browser) (key : string) (shiftKey : bool)
    (st : State) : M State :=
  if String.eqb key "Enter" && negb shiftKey
  then handleSendMessage browser st
  else ret st.

(** [String.prototype.split(' ')]: the pieces between the spaces, of which
    there is always one more than there are spaces. *)
Fixpoint split (s : string) : list string :=
  match s with
  | EmptyString => [EmptyString]
  | String c s' =>
      if Ascii.eqb c " " then EmptyString :: split s'
      else match split s' with
           | piece :: pieces => String c piece :: pieces
           | [] => [String c EmptyString]
           end
  end.

(** [n[0]]: [undefined] on the empty string. *)
Definition firstChar (n : string) : option ascii :=
  match n with
  | EmptyString => None
  | String c _ => Some c
  end.

(** [Array.prototype.join('')], which prints [undefined] as nothing. *)
Fixpoint join (l : list (option ascii)) : string :=
  match l with
  | [] => EmptyString
  | None :: l' => join l'
  | Some c :: l' => String c (join l')
  end.

(** The text of the avatar of a chat:
    [customerName.split(' ').map((n) => n[0]).join('')]. *)
Definition initials (customerName : string) : string :=
  join (map firstChar (split customerName)).

End SupportView.

(** ** The Products screen: what is rendered next to the table and in the
    dialog *)

Module ProductsView.

Import Products.

(** [new Set(values)] as [Array.from] lists it: the values in the order of
    their first occurrence; [seen] is the set so far. *)
Fixpoint setFrom (values seen : list string) : list string :=
  match values with
  | [] => seen
  | v :: values' =>
      if existsb (String.eqb v) seen then setFrom values' seen
      else setFrom values' (seen ++ [v])
  end.

Definition categories (products : list Product) : list string :=
  setFrom (map category products) [].

(** The props and the text of a [Badge]. *)
Record Badge : Type := {
  badge_className : option string;
  badge_variant : option string;
  badge_text : string
}.

Definition getStatusBadge (status : string) : Badge :=
  if String.eqb status "In Stock" then
    {| badge_className := Some "bg-success text-success-foreground";
       badge_variant := None; badge_text := "In Stock" |}
  else if String.eqb status "Low Stock" then
    {| badge_className := Some "bg-warning text-warning-foreground";
       badge_variant := None; badge_text := "Low Stock" |}
  else if String.eqb status "Out of Stock" then
    {| badge_className := None; badge_variant := Some "destructive";
       badge_text := "Out of Stock" |}
  else
    {| badge_className := None; badge_variant := Some "secondary";
       badge_text := status |}.

(** The two numbers of "Showing ... of ... products". *)
Definition resultsCount (products : list Product) (st : ScreenState) : nat * nat :=
  (List.length (filteredProducts products (searchTerm st) (categoryFilter st)),
   List.length products).

(** The number in "... products low on stock" under the table, when the
    line is rendered. *)
Definition lowStockWarning (filtered : list Product) : option nat :=
  if existsb (fun p => (stock p <? 10)%N) filtered
  then Some (List.length (filter (fun p => (stock p <? 10)%N) filtered))
  else None.

(** [url.trim()] as a condition: a string is truthy when it is not empty. *)
Definition truthyTrim (url : string) : bool := negb (String.eqb (JS.trim url) "").


(** The [disabled] attribute of the "Add Image" button. *)
Definition addImageDisabled (imageUrls : list string) : bool :=
  (10 <=? List.length imageUrls)%nat.

(** Whether the rows have a remove button. *)
Definition removeButtonRendered (imageUrls : list string) : bool :=
  (1 <? List.length imageUrls)%nat.

End ProductsView.

(** * Properties *)

(** Running a handler that is a sequence of two. *)
Lemma bind_run {A B : Type} (c : M A) (k : A -> M B) (w : World) :
  bind c k w = k (fst (c w)) (snd (c w)).
Proof. unfold bind. now destruct (c w). Qed.

(** ** Strings *)

Module JSFacts.

Import JS.

(** What [startsWith] and [includes] decide. *)
Definition StartsWith (s p : string) : Prop := exists rest, s = (p ++ rest)%string.

Definition Contains (s t : string) : Prop := exists before after, s = (before ++ t ++ after)%string.

Lemma startsWith_spec (s p : string) : startsWith s p = true <-> StartsWith s p.
Proof.
  revert s; induction p as [|b p IH]; intros s; simpl.
  - split; [intros _; now exists s | reflexivity].
  - destruct s as [|a s].
    + split; [discriminate | intros [r H]; discriminate].
    + rewrite andb_true_iff, Ascii.eqb_eq, IH. split.
      * intros [-> [r ->]]. now exists r.
      * intros [r H]. injection H as -> ->. split; [reflexivity | now exists r].
Qed.

Lemma startsWith_false (s p : string) : startsWith s p = false <-> ~ StartsWith s p.
Proof.
  rewrite <- startsWith_spec. destruct (startsWith s p); split; congruence.
Qed.

Lemma includes_unfold (s t : string) :
  includes s t =
  startsWith s t || match s with EmptyString => false | String _ s' => includes s' t end.
Proof. destruct s; reflexivity. Qed.

Lemma includes_spec (s t : string) : includes s t = true <-> Contains s t.
Proof.
  induction s as [|a s IH]; rewrite includes_unfold, orb_true_iff, startsWith_spec.
  - split.
    + intros [[r H] | H]; [now exists "", r | discriminate].
    + intros [[|c before] [after H]]; [left; now exists after | discriminate].
  - rewrite IH. split.
    + intros [[r H] | [before [after H]]].
      * now exists "", r.
      * exists (String a before), after. simpl. now rewrite H.
    + intros [[|c before] [after H]].
      * left. now exists after.
      * right. injection H as _ H. now exists before, after.
Qed.

Lemma includes_false (s t : string) : includes s t = false <-> ~ Contains s t.
Proof.
  rewrite <- includes_spec. destruct (includes s t); split; congruence.
Qed.

End JSFacts.

(** ** The Support screen: file classification and size formatting *)

Module SupportSpec.

Import JS JSFacts Support.

Local Open Scope handler_scope.

Lemma append_assoc (a b c : string) : ((a ++ b) ++ c = a ++ (b ++ c))%string.
Proof. induction a as [|x a IH]; simpl; [reflexivity | now rewrite IH]. Qed.

(** C1.  [getFileType] classifies a file by its MIME type, the cases read in
    the order the list gives them: a type that starts with "image/" is an
    [image]; one that starts with "audio/" is an [audio]; one that starts
    with neither and contains "pdf", "document" or "text" is a [document];
    every other type is [other]. *)
Theorem getFileType_classification (file : File) :
  let t := file_type file in
  (StartsWith t "image/" -> getFileType file = image) /\
  (StartsWith t "audio/" -> getFileType file = audio) /\
  (~ StartsWith t "image/" -> ~ StartsWith t "audio/" ->
   Contains t "pdf" \/ Contains t "document" \/ Contains t "text" ->
   getFileType file = document) /\
  (~ StartsWith t "image/" -> ~ StartsWith t "audio/" ->
   ~ Contains t "pdf" -> ~ Contains t "document" -> ~ Contains t "text" ->
   getFileType file = other).
Proof.
  unfold getFileType. cbv zeta. repeat split.
  - intros H. apply startsWith_spec in H. now rewrite H.
  - intros [r H]. rewrite H. reflexivity.
  - intros Hi Ha H.
    apply startsWith_false in Hi, Ha. rewrite Hi, Ha.
    rewrite <- !includes_spec, <- !orb_true_iff, orb_assoc in H. now rewrite H.
  - intros Hi Ha Hp Hd Ht.
    apply startsWith_false in Hi, Ha. apply includes_false in Hp, Hd, Ht.
    now rewrite Hi, Ha, Hp, Hd, Ht.
Qed.

Definition png : File :=
  {| file_name := "photo.png"; file_type := "image/png"; file_size := 5120 |}.
Definition mp3 : File :=
  {| file_name := "voice.mp3"; file_type := "audio/mpeg"; file_size := 900 |}.
Definition pdf : File :=
  {| file_name := "invoice.pdf"; file_type := "application/pdf"; file_size := 2097152 |}.
Definition zip : File :=
  {| file_name := "parts.zip"; file_type := "application/zip"; file_size := 11534336 |}.

Lemma getFileType_classification_witness :
  getFileType png = image /\ getFileType mp3 = audio /\
  getFileType pdf = document /\ getFileType zip = other.
Proof.
  split; [|split; [|split]].
  - apply (getFileType_classification png). now exists "png".
  - apply (getFileType_classification mp3). now exists "mpeg".
  - apply (getFileType_classification pdf).
    + apply startsWith_false. reflexivity.
    + apply startsWith_false. reflexivity.
    + left. now exists "application/", "".
  - apply (getFileType_classification zip);
      first [apply startsWith_false | apply includes_false]; reflexivity.
Defined.

(** A string renders [num / den] with one decimal place: it is the digits
    of a whole number, a point and one digit, and its value is within half a
    tenth of the quotient. *)
Definition OneDecimal (num den : N) (s : string) : Prop :=
  exists n : N,
    s = (decimal (n / 10) ++ "." ++ decimal (n mod 10))%string /\
    (2 * den * n <= 20 * num + den < 2 * den * (n + 1))%N.

Lemma toFixed1_one_decimal (num den : N) :
  (den <> 0)%N -> (num < 10 ^ 21 * den)%N -> OneDecimal num den (toFixed1 num den).
Proof.
  intros Hden Hlt. unfold toFixed1.
  destruct (N.leb_spec (10 ^ 21 * den) num) as [H | _]; [lia|].
  exists (nearestTenths num den). split; [reflexivity|].
  unfold nearestTenths.
  pose proof (N.Div0.mul_div_le (20 * num + den) (2 * den)) as Hle.
  pose proof (N.mul_succ_div_gt (20 * num + den) (2 * den)) as Hgt.
  rewrite <- N.add_1_r in Hgt. split; [exact Hle | apply Hgt; lia].
Qed.

(** The sizes from which [toFixed] no longer prints a fixed-point number:
    1048576 * 10^21 bytes. *)
Definition exponentialFrom : N := 1048576 * 10 ^ 21.

(** Every size that passes the 10 MiB guard of [handleFileSelect], the one
    place [formatFileSize] is called from, is a JavaScript number far below
    that. *)
Lemma accepted_size_is_number (bytes : N) :
  (bytes <= 10485760)%N -> isNumber bytes = true /\ (bytes < exponentialFrom)%N.
Proof.
  intros H. split; [|unfold exponentialFrom; lia].
  unfold isNumber, ulp.
  pose proof (N.log2_le_mono bytes 10485760 H) as Hlog.
  change (N.log2 10485760) with 23%N in Hlog.
  replace (N.log2 bytes - 52)%N with 0%N by lia.
  change (2 ^ 0)%N with 1%N. rewrite N.mod_1_r. reflexivity.
Qed.

(** C5.  For every number of bytes [formatFileSize] can be given, that is
    every natural number that is a JavaScript number below the sizes printed
    with an exponent, as every file size is: a size below 1024 is printed as
    the byte count and " B", a size from 1024 and below 1048576 as size/1024
    with one decimal place and " KB", and a size from 1048576 on as
    size/1048576 with one decimal place and " MB". *)
Theorem formatFileSize_units (bytes : N) :
  isNumber bytes = true ->
  (bytes < exponentialFrom)%N ->
  ((bytes < 1024)%N -> formatFileSize bytes = (decimal bytes ++ " B")%string) /\
  ((1024 <= bytes < 1048576)%N ->
   exists r, formatFileSize bytes = (r ++ " KB")%string /\ OneDecimal bytes 1024 r) /\
  ((1048576 <= bytes)%N ->
   exists r, formatFileSize bytes = (r ++ " MB")%string /\ OneDecimal bytes 1048576 r).
Proof.
  intros _ Hbound. unfold formatFileSize. unfold exponentialFrom in Hbound.
  change (1024 * 1024)%N with 1048576%N.
  repeat split.
  - intros H. destruct (N.ltb_spec bytes 1024); [reflexivity | lia].
  - intros [H1 H2].
    destruct (N.ltb_spec bytes 1024); [lia|].
    destruct (N.ltb_spec bytes 1048576); [|lia].
    exists (toFixed1 bytes 1024). split; [reflexivity|].
    apply toFixed1_one_decimal; lia.
  - intros H1.
    destruct (N.ltb_spec bytes 1024); [lia|].
    destruct (N.ltb_spec bytes 1048576); [lia|].
    exists (toFixed1 bytes 1048576). split; [reflexivity|].
    apply toFixed1_one_decimal; lia.
Qed.

Lemma formatFileSize_units_witness :
  formatFileSize 512 = (decimal 512 ++ " B")%string /\
  (exists r, formatFileSize 5120 = (r ++ " KB")%string /\ OneDecimal 5120 1024 r) /\
  (exists r, formatFileSize 2097152 = (r ++ " MB")%string /\
             OneDecimal 2097152 1048576 r).
Proof.
  split; [|split].
  - apply (proj1 (formatFileSize_units 512 eq_refl ltac:(unfold exponentialFrom; lia))).
    lia.
  - apply (proj1 (proj2 (formatFileSize_units 5120 eq_refl
                           ltac:(unfold exponentialFrom; lia)))).
    lia.
  - apply (proj2 (proj2 (formatFileSize_units 2097152 eq_refl
                           ltac:(unfold exponentialFrom; lia)))).
    lia.
Defined.

(** Why the bound is there: the first size above it is printed with an
    exponent.  No file has that size. *)
Remark formatFileSize_exponential :
  isNumber exponentialFrom = true /\
  formatFileSize exponentialFrom = "1e+21 MB"%string.
Proof. split; vm_compute; reflexivity. Qed.

(** ** The Support screen: attaching files *)

(** The size limit of an attachment, 10 MiB. *)
Definition withinLimit (f : File) : bool := (file_size f <=? 10485760)%N.

Definition oversized (f : File) : bool := negb (withinLimit f).

Definition tooLarge (f : File) : Toast :=
  toast_error (file_name f ++ " is too large. Max file size is 10MB.").

Definition attached (count : nat) : Toast :=
  toast_success (decimal (N.of_nat count) ++ " file(s) attached").

(** The attachment made of a file carries its name, its class and its
    formatted size. *)
Definition Describes (f : File) (a : Attachment) : Prop :=
  att_name a = file_name f /\
  att_type a = getFileType f /\
  att_size a = formatFileSize (file_size f).

Section Attach.

Variable browser : Browser.

Lemma attachFile_oversized (f : File) (acc : list Attachment) (w : World) :
  oversized f = true ->
  fst (attachFile browser f acc w) = acc /\
  toasts (snd (attachFile browser f acc w)) = toasts w ++ [tooLarge f].
Proof.
  unfold oversized, withinLimit, attachFile. intros H.
  change (10 * 1024 * 1024)%N with 10485760%N.
  rewrite N.ltb_antisym, H. split; reflexivity.
Qed.

Lemma attachFile_withinLimit (f : File) (acc : list Attachment) (w : World) :
  withinLimit f = true ->
  exists a, Describes f a /\
    fst (attachFile browser f acc w) = acc ++ [a] /\
    toasts (snd (attachFile browser f acc w)) = toasts w.
Proof.
  unfold withinLimit, attachFile. intros H.
  change (10 * 1024 * 1024)%N with 10485760%N.
  rewrite N.ltb_antisym, H. cbn [negb].
  eexists. split; [|split; reflexivity]. repeat split.
Qed.

Lemma forEachFile_spec (files : list File) :
  forall (acc : list Attachment) (w : World),
  exists news,
    fst (forEachFile browser files acc w) = acc ++ news /\
    Forall2 Describes (filter withinLimit files) news /\
    toasts (snd (forEachFile browser files acc w))
    = toasts w ++ map tooLarge (filter oversized files).
Proof.
  induction files as [|f files IH]; intros acc w.
  - exists []. cbn. rewrite !app_nil_r. repeat split. constructor.
  - cbn [forEachFile filter]. rewrite bind_run. unfold oversized at 1.
    destruct (withinLimit f) eqn:Hf; cbn [negb].
    + destruct (attachFile_withinLimit f acc w Hf) as [a [Ha [Hacc Hw]]].
      destruct (IH (fst (attachFile browser f acc w))
                   (snd (attachFile browser f acc w))) as [news [H1 [H2 H3]]].
      exists (a :: news). rewrite H1, H3, Hacc, Hw, <- app_assoc.
      repeat split. now constructor.
    + assert (Ho : oversized f = true) by (unfold oversized; now rewrite Hf).
      destruct (attachFile_oversized f acc w Ho) as [Hacc Hw].
      destruct (IH (fst (attachFile browser f acc w))
                   (snd (attachFile browser f acc w))) as [news [H1 [H2 H3]]].
      exists news. rewrite H1, H3, Hacc, Hw, <- app_assoc.
      repeat split. exact H2.
Qed.

Lemma handleFileSelect_run (files : list File) (st : State) (w : World) :
  exists news,
    attachments (fst (handleFileSelect browser (Some files) st w))
    = attachments st ++ news /\
    Forall2 Describes (filter withinLimit files) news /\
    toasts (snd (handleFileSelect browser (Some files) st w))
    = toasts w ++ map tooLarge (filter oversized files) ++ [attached (List.length news)].
Proof.
  destruct (forEachFile_spec files [] w) as [news [H1 [H2 H3]]].
  exists news. cbn [handleFileSelect]. rewrite !bind_run.
  cbn [app] in H1. rewrite H1.
  split; [reflexivity | split; [exact H2|]].
  cbn. rewrite H3, <- app_assoc. reflexivity.
Qed.

Lemma filter_all_oversized (files : list File) :
  Forall (fun f => (10485760 < file_size f)%N) files ->
  filter withinLimit files = [] /\ filter oversized files = files.
Proof.
  induction 1 as [|f files Hf _ [IH1 IH2]]; [split; reflexivity|].
  assert (E : withinLimit f = false) by (apply N.leb_gt; exact Hf).
  cbn [filter]. unfold oversized at 1. rewrite E. cbn [negb].
  now rewrite IH1, IH2.
Qed.

(** C2.  [handleFileSelect] turns the selected files of at most 10 MiB, and
    only them, into attachments, appended in their order after the ones
    already there; a file of more than 10 MiB gets no attachment and an
    error notification of its own. *)
Theorem handleFileSelect_size_limit (files : list File) (st : State) (w : World) :
  let r := handleFileSelect browser (Some files) st w in
  exists news,
    attachments (fst r) = attachments st ++ news /\
    Forall2 Describes (filter withinLimit files) news /\
    (forall f, In f files -> (file_size f <= 10485760)%N ->
               exists a, In a news /\ Describes f a) /\
    (forall f, In f files -> (10485760 < file_size f)%N ->
               In (tooLarge f) (toasts (snd r))) /\
    exists count,
      toasts (snd r) = toasts w ++ map tooLarge (filter oversized files) ++ [count].
Proof.
  cbv zeta. destruct (handleFileSelect_run files st w) as [news [H1 [H2 H3]]].
  exists news. split; [exact H1 | split; [exact H2 | split; [|split]]].
  - intros f Hin Hsize.
    assert (Hf : In f (filter withinLimit files))
      by (apply filter_In; split; [exact Hin | now apply N.leb_le]).
    clear H1 H3. induction H2 as [|g a gs news' Hga _ IH]; [contradiction|].
    destruct Hf as [-> | Hf].
    + exists a. split; [now left | exact Hga].
    + destruct (IH Hf) as [a' [Ha' Hd]]. exists a'. split; [now right | exact Hd].
  - intros f Hin Hsize. rewrite H3.
    apply in_or_app. right. apply in_or_app. left.
    apply in_map, filter_In. split; [exact Hin|].
    unfold oversized, withinLimit. apply negb_true_iff, N.leb_gt. exact Hsize.
  - eexists. exact H3.
Qed.

(** C10.  Whatever is selected, [handleFileSelect] ends with a success
    notification that gives the number of accepted files; when every
    selected file is over the limit, the notifications are the error of each
    file and then "0 file(s) attached", and the attachment list stays as it
    was. *)
Theorem handleFileSelect_reports_count (files : list File) (st : State) (w : World) :
  let r := handleFileSelect browser (Some files) st w in
  toasts (snd r)
  = toasts w ++ map tooLarge (filter oversized files)
             ++ [attached (List.length (filter withinLimit files))] /\
  (Forall (fun f => (10485760 < file_size f)%N) files ->
   toasts (snd r) = toasts w ++ map tooLarge files ++ [toast_success "0 file(s) attached"] /\
   attachments (fst r) = attachments st).
Proof.
  cbv zeta. destruct (handleFileSelect_run files st w) as [news [H1 [H2 H3]]].
  pose proof (Forall2_length H2) as Hlen.
  split.
  - rewrite H3, Hlen. reflexivity.
  - intros Hall. destruct (filter_all_oversized files Hall) as [E1 E2].
    rewrite E1 in Hlen. destruct news; [|discriminate Hlen].
    rewrite H1, H3, E2, app_nil_r. split; reflexivity.
Qed.

End Attach.

Definition quietBrowser : Browser :=
  {| dateNow := fun n => (1700000000000 + N.of_nat n)%N;
     randomId := fun _ => "k3j9x0q2a";
     objectURL := fun _ => "blob:admin/0";
     toISOString := fun _ => "2023-11-14T22:13:20.000Z" |}.

Definition freshWorld : World :=
  {| clockReads := 0; randomReads := 0; urlsCreated := 0; toasts := [];
     fileInput := Some "C:\fakepath\parts.zip" |}.

Definition idle : State :=
  {| selectedChat := None; message := ""; searchTerm := ""; attachments := [];
     localMessages := []; showChatList := true |}.

Lemma handleFileSelect_reports_count_witness :
  toasts (snd (handleFileSelect quietBrowser (Some [zip]) idle freshWorld))
  = [tooLarge zip; toast_success "0 file(s) attached"] /\
  attachments (fst (handleFileSelect quietBrowser (Some [zip]) idle freshWorld)) = [].
Proof.
  apply (handleFileSelect_reports_count quietBrowser [zip] idle freshWorld).
  repeat constructor.
Defined.

Lemma handleFileSelect_size_limit_witness :
  let r := handleFileSelect quietBrowser (Some [png; zip]) idle freshWorld in
  (exists a, In a (attachments (fst r)) /\ Describes png a) /\
  In (tooLarge zip) (toasts (snd r)).
Proof.
  cbv zeta.
  destruct (handleFileSelect_size_limit quietBrowser [png; zip] idle freshWorld)
    as [news [H1 [_ [Hin [Hout _]]]]].
  split.
  - destruct (Hin png) as [a [Ha Hd]]; [now left | cbn; lia |].
    exists a. rewrite H1. split; [exact Ha | exact Hd].
  - apply Hout; [right; now left | cbn; lia].
Defined.

(** The two attachments of the specification's examples: a 5 KB image is
    attached as an image of size "5.0 KB"; a file of 11 MiB is turned down
    with a notification and the attachment list stays empty. *)
Example attach_5KB_png :
  map (fun a => (att_name a, att_type a, att_size a))
      (attachments (fst (handleFileSelect quietBrowser (Some [png]) idle freshWorld)))
  = [("photo.png"%string, image, "5.0 KB"%string)].
Proof. reflexivity. Qed.

Example attach_11MiB :
  attachments (fst (handleFileSelect quietBrowser (Some [zip]) idle freshWorld)) = [] /\
  toasts (snd (handleFileSelect quietBrowser (Some [zip]) idle freshWorld))
  = [toast_error "parts.zip is too large. Max file size is 10MB.";
     toast_success "0 file(s) attached"].
Proof. split; reflexivity. Qed.

(** ** The Support screen: sending a message *)

(** The [attachments] field of a sent message: a copy of the list when
    there is something in it, [undefined] when it is empty. *)
Definition sentAttachments (l : list Attachment) : option (list Attachment) :=
  match l with
  | [] => None
  | _ :: _ => Some l
  end.

(** C3.  With a draft text that is not blank, [handleSendMessage] appends
    exactly one message to the local messages, from the sender "admin", with
    the draft text and with an attachments field that is the attachment
    list at send time when that list is not empty and is undefined when it
    is empty; afterwards the draft text is the empty string and the
    attachment list is empty. *)
Theorem handleSendMessage_appends (browser : Browser) (st : State) (w : World) :
  trim (message st) <> ""%string ->
  let r := handleSendMessage browser st w in
  exists m,
    localMessages (fst r) = localMessages st ++ [m] /\
    msg_sender m = "admin"%string /\
    msg_text m = message st /\
    msg_attachments m = sentAttachments (attachments st) /\
    message (fst r) = ""%string /\
    attachments (fst r) = [].
Proof.
  intros Hblank. cbv zeta. unfold handleSendMessage.
  apply String.eqb_neq in Hblank. rewrite Hblank. cbn [andb].
  rewrite !bind_run. eexists. cbn.
  repeat (split; [reflexivity|]). split; [|split; reflexivity].
  now destruct (attachments st).
Qed.

Definition greeting : State :=
  {| selectedChat := None; message := "Your order has shipped";
     searchTerm := ""; attachments := []; localMessages := [];
     showChatList := false |}.

Lemma handleSendMessage_appends_witness :
  let r := handleSendMessage quietBrowser greeting freshWorld in
  exists m,
    localMessages (fst r) = [m] /\
    msg_sender m = "admin"%string /\
    msg_text m = "Your order has shipped"%string /\
    msg_attachments m = None /\
    message (fst r) = ""%string /\
    attachments (fst r) = [].
Proof.
  apply (handleSendMessage_appends quietBrowser greeting freshWorld).
  cbn. discriminate.
Defined.

(** A text without attachments is sent with an attachments field that is
    undefined, which is not the (empty) attachment list. *)
Lemma handleSendMessage_attachments_undefined :
  ~ (trim (message greeting) <> ""%string ->
     let r := handleSendMessage quietBrowser greeting freshWorld in
     exists m,
       localMessages (fst r) = localMessages greeting ++ [m] /\
       msg_sender m = "admin"%string /\
       msg_text m = message greeting /\
       msg_attachments m = Some (attachments greeting) /\
       message (fst r) = ""%string /\
       attachments (fst r) = []).
Proof.
  intros H. destruct H as [m [Hm [_ [_ [Ha _]]]]]; [cbn; discriminate|].
  cbn in Hm. injection Hm as <-. discriminate Ha.
Qed.

(** C4.  With a draft text that is empty or blank and no attachment,
    [handleSendMessage] does nothing: the state, with its local messages,
    draft text and attachment list, and the world are returned as they
    were. *)
Theorem handleSendMessage_nothing_to_send (browser : Browser) (st : State) (w : World) :
  trim (message st) = ""%string ->
  attachments st = [] ->
  handleSendMessage browser st w = (st, w).
Proof.
  intros Hblank Hnone. unfold handleSendMessage.
  rewrite Hblank, Hnone. reflexivity.
Qed.

Definition blankDraft : State :=
  {| selectedChat := None; message := "   "; searchTerm := "";
     attachments := []; localMessages := []; showChatList := false |}.

Lemma handleSendMessage_nothing_to_send_witness :
  handleSendMessage quietBrowser blankDraft freshWorld = (blankDraft, freshWorld).
Proof.
  apply handleSendMessage_nothing_to_send; reflexivity.
Defined.

(** ** The Support screen: the messages on display *)

(** The selected chat is the first of the chat list, by its id. *)
Definition FirstChat (chats : list SupportChat) (c : SupportChat) : Prop :=
  exists c0 rest, chats = c0 :: rest /\ chat_id c = chat_id c0.

Lemma filter_const {A : Type} (b : bool) (l : list A) :
  filter (fun _ => b) l = if b then l else [].
Proof.
  destruct b; induction l as [|x l IH]; cbn; [reflexivity | now rewrite IH | reflexivity | exact IH].
Qed.

Lemma sameId_first (chats : list SupportChat) (c : SupportChat) :
  sameId (Some c) (hd_error chats) = true <-> FirstChat chats c.
Proof.
  destruct chats as [|c0 rest]; cbn.
  - split; [discriminate | intros [c1 [r [H _]]]; discriminate].
  - rewrite String.eqb_eq. split.
    + intros H. now exists c0, rest.
    + intros [c1 [r [H1 H2]]]. now injection H1 as <- <-.
Qed.


Definition hello : MessageWithAttachment :=
  {| msg_id := "m1"; msg_sender := "customer"; msg_text := "Is the pad in stock?";
     msg_timestamp := "2023-11-14T22:10:00.000Z"; msg_attachments := None |}.


Definition chat (id' customer : string) : SupportChat :=
  {| chat_id := id'; customerName := customer; lastMessage := "Is the pad in stock?";
     lastMessageTime := "2023-11-14T22:10:00.000Z"; unreadCount := 1;
     chat_status := "open"; messages := [hello] |}.



End SupportSpec.

(** ** The Products screen *)

Module ProductsSpec.

Import JS JSFacts Products.

Local Open Scope handler_scope.

(** *** Search *)

(** Two strings are equal up to the case of their letters: they have the
    same length and, position by position, characters with the same
    lower-case form. *)
Inductive EqualIgnoringCase : string -> string -> Prop :=
  | eic_empty : EqualIgnoringCase "" ""
  | eic_char (a b : ascii) (s t : string) :
      toLowerCaseChar a = toLowerCaseChar b ->
      EqualIgnoringCase s t ->
      EqualIgnoringCase (String a s) (String b t).

(** [term] occurs in [s] when the case of letters is ignored. *)
Definition OccursIgnoringCase (term s : string) : Prop :=
  exists before mid after,
    s = (before ++ mid ++ after)%string /\ EqualIgnoringCase mid term.

Lemma toLowerCase_eq (s t : string) :
  toLowerCase s = toLowerCase t <-> EqualIgnoringCase s t.
Proof.
  split.
  - revert t; induction s as [|a s IH]; intros [|b t] H; try discriminate.
    + constructor.
    + cbn in H. injection H as Hc Hs. constructor; [exact Hc | now apply IH].
  - induction 1 as [|a b s t Hc _ IH]; [reflexivity|].
    cbn. now rewrite Hc, IH.
Qed.

Lemma toLowerCase_app (s t : string) :
  toLowerCase (s ++ t) = (toLowerCase s ++ toLowerCase t)%string.
Proof. induction s as [|a s IH]; cbn; [reflexivity | now rewrite IH]. Qed.

Lemma toLowerCase_app_inv (s x y : string) :
  toLowerCase s = (x ++ y)%string ->
  exists s1 s2, s = (s1 ++ s2)%string /\ toLowerCase s1 = x /\ toLowerCase s2 = y.
Proof.
  revert s; induction x as [|c x IH]; intros s H.
  - exists "", s. repeat split. exact H.
  - destruct s as [|a s]; [discriminate|].
    cbn in H. injection H as Hc Hs.
    destruct (IH s Hs) as [s1 [s2 [-> [H1 H2]]]].
    exists (String a s1), s2. cbn. now rewrite Hc, H1.
Qed.

Lemma includes_toLowerCase (s term : string) :
  includes (toLowerCase s) (toLowerCase term) = true <-> OccursIgnoringCase term s.
Proof.
  rewrite includes_spec. split.
  - intros [x [y H]].
    destruct (toLowerCase_app_inv _ _ _ H) as [before [rest [-> [Hb Hrest]]]].
    destruct (toLowerCase_app_inv _ _ _ Hrest) as [mid [after [-> [Hm Ha]]]].
    exists before, mid, after. split; [reflexivity | now apply toLowerCase_eq].
  - intros [before [mid [after [-> Hm]]]]. apply toLowerCase_eq in Hm.
    exists (toLowerCase before), (toLowerCase after).
    now rewrite !toLowerCase_app, Hm.
Qed.

(** What the search box and the category filter ask of a product. *)
Definition Matches (searchTerm categoryFilter : string) (p : Product) : Prop :=
  (OccursIgnoringCase searchTerm (name p) \/
   OccursIgnoringCase searchTerm (partNumber p) \/
   OccursIgnoringCase searchTerm (model p)) /\
  (categoryFilter = "all"%string \/ category p = categoryFilter).

Lemma matches_spec (searchTerm categoryFilter : string) (p : Product) :
  matchesSearch searchTerm p && matchesCategory categoryFilter p = true
  <-> Matches searchTerm categoryFilter p.
Proof.
  unfold matchesSearch, matchesCategory, Matches.
  rewrite andb_true_iff, !orb_true_iff, !includes_toLowerCase, !String.eqb_eq.
  tauto.
Qed.

(** C6.  The filtered list of the Products screen keeps, in their order,
    exactly the products in whose name, part number or model the search term
    occurs when case is ignored and whose category is the category filter,
    the filter "all" letting every category through. *)
Theorem filteredProducts_exact (products : list Product) (searchTerm categoryFilter : string) :
  (exists keep : Product -> bool,
     filteredProducts products searchTerm categoryFilter = filter keep products /\
     forall p, keep p = true <-> Matches searchTerm categoryFilter p) /\
  (forall p, In p (filteredProducts products searchTerm categoryFilter)
             <-> In p products /\ Matches searchTerm categoryFilter p).
Proof.
  split.
  - eexists. split; [reflexivity|]. intros p. apply matches_spec.
  - intros p. unfold filteredProducts. rewrite filter_In, matches_spec. reflexivity.
Qed.

Definition part (name' partNumber' category' model' : string) : Product :=
  {| id := partNumber'; name := name'; partNumber := partNumber';
     category := category'; model := model'; price := 1200; stock := 8;
     status := "In Stock"; images := []; supplier := "Mobis" |}.

Definition brakePad : Product := part "Front BRAKE Pad" "58101-A7A00" "Brakes" "i20".
Definition oilFilter : Product := part "Oil Filter" "26300-35505" "Engine" "Creta".

Lemma filteredProducts_exact_witness :
  In brakePad (filteredProducts [brakePad; oilFilter] "brake" "all") /\
  ~ In oilFilter (filteredProducts [brakePad; oilFilter] "brake" "all").
Proof.
  split.
  - apply (proj2 (filteredProducts_exact [brakePad; oilFilter] "brake" "all")).
    split; [now left|]. split; [|now left].
    left. exists "Front ", "BRAKE", " Pad". split; [reflexivity|].
    apply toLowerCase_eq. reflexivity.
  - intros H.
    apply (proj2 (filteredProducts_exact [brakePad; oilFilter] "brake" "all")) in H.
    destruct H as [_ H]. apply matches_spec in H. discriminate H.
Defined.

(** *** The add-product dialog *)

Definition nonBlank (url : string) : bool := negb (String.eqb (trim url) "").

Lemma no_valid_url (urls : list string) :
  filter nonBlank urls = [] <-> forall url, In url urls -> trim url = ""%string.
Proof.
  induction urls as [|u urls IH]; cbn.
  - split; [intros _ url [] | reflexivity].
  - unfold nonBlank at 1. destruct (String.eqb_spec (trim u) ""); cbn [negb].
    + rewrite IH. split.
      * intros H url [<- | Hin]; [assumption | now apply H].
      * intros H url Hin. apply H. now right.
    + split; [discriminate | intros H; exfalso; apply n, H; now left].
Qed.

(** C7.  [handleAddProduct] returns the products collection as it received
    it.  When every image URL is blank it shows the error notification and
    leaves the component state, with its image-URL list, as it was; when
    some image URL is not blank it shows the success notification and the
    image-URL list becomes the single empty entry. *)
Theorem handleAddProduct_frame (products : list Product) (st : ScreenState) (w : World) :
  let r := handleAddProduct products st w in
  fst (fst r) = products /\
  ((forall url, In url (imageUrls st) -> trim url = ""%string) ->
   snd (fst r) = st /\
   toasts (snd r) = toasts w ++ [toast_error "Please add at least one product image"]) /\
  ((exists url, In url (imageUrls st) /\ trim url <> ""%string) ->
   snd (fst r) = setImageUrls [""%string] st /\
   toasts (snd r) = toasts w ++ [toast_success "Product added successfully"]).
Proof.
  cbv zeta. unfold handleAddProduct. fold nonBlank.
  destruct (filter nonBlank (imageUrls st)) as [|u valid] eqn:E; cbn.
  - split; [reflexivity | split].
    + intros _. split; reflexivity.
    + intros [url [Hin Hurl]]. exfalso. apply Hurl.
      now apply (proj1 (no_valid_url (imageUrls st)) E).
  - split; [reflexivity | split].
    + intros H. apply no_valid_url in H. rewrite H in E. discriminate E.
    + intros _. split; reflexivity.
Qed.

Definition emptyWorld : World :=
  {| clockReads := 0; randomReads := 0; urlsCreated := 0; toasts := [];
     fileInput := None |}.

Definition twoUrls : ScreenState :=
  {| searchTerm := ""; categoryFilter := "all";
     imageUrls := ["https://cdn.example.com/pad.jpg"%string; "  "%string] |}.

Lemma handleAddProduct_frame_witness :
  fst (fst (handleAddProduct [brakePad] initialState emptyWorld)) = [brakePad] /\
  snd (fst (handleAddProduct [brakePad] initialState emptyWorld)) = initialState /\
  snd (fst (handleAddProduct [brakePad] twoUrls emptyWorld)) = initialState.
Proof.
  split; [|split].
  - apply (handleAddProduct_frame [brakePad] initialState emptyWorld).
  - apply (proj1 (proj2 (handleAddProduct_frame [brakePad] initialState emptyWorld))).
    intros url [<- | []]. reflexivity.
  - apply (proj2 (proj2 (handleAddProduct_frame [brakePad] twoUrls emptyWorld))).
    exists "https://cdn.example.com/pad.jpg"%string. split; [now left | discriminate].
Defined.

(** *** The length of the image-URL list *)

Definition InBounds (urls : list string) : Prop :=
  1 <= List.length urls <= 10.

Lemma addImageUrl_length (urls : list string) :
  List.length (addImageUrl urls)
  = if (List.length urls <? 10)%nat then S (List.length urls) else List.length urls.
Proof.
  unfold addImageUrl. destruct (List.length urls <? 10)%nat; [|reflexivity].
  rewrite length_app. cbn. lia.
Qed.

Lemma filterWithIndex_later {A : Type} (index i : nat) (l : list A) :
  index < i -> filterWithIndex (fun _ j => negb (j =? index)%nat) i l = l.
Proof.
  revert i; induction l as [|x l IH]; intros i Hi; cbn; [reflexivity|].
  destruct (Nat.eqb_spec i index); [lia|]. cbn. rewrite IH; [reflexivity | lia].
Qed.

Lemma filterWithIndex_length {A : Type} (index i : nat) (l : list A) :
  List.length (filterWithIndex (fun _ j => negb (j =? index)%nat) i l)
  = if ((i <=? index) && (index <? i + List.length l))%nat
    then List.length l - 1 else List.length l.
Proof.
  revert i; induction l as [|x l IH]; intros i; cbn [filterWithIndex List.length].
  - now destruct ((i <=? index) && (index <? i + 0))%nat.
  - destruct (Nat.eqb_spec i index) as [-> | Hne]; cbn [negb].
    + rewrite filterWithIndex_later by lia.
      rewrite Nat.leb_refl. cbn [andb].
      destruct (Nat.ltb_spec index (index + S (List.length l))); lia.
    + cbn [List.length]. rewrite IH.
      destruct (Nat.leb_spec (S i) index), (Nat.leb_spec i index),
        (Nat.ltb_spec index (S i + List.length l)),
        (Nat.ltb_spec index (i + S (List.length l))); cbn [andb]; lia.
Qed.

Lemma removeImageUrl_length (index : nat) (urls : list string) :
  List.length (removeImageUrl index urls)
  = if ((1 <? List.length urls) && (index <? List.length urls))%nat
    then List.length urls - 1 else List.length urls.
Proof.
  unfold removeImageUrl. destruct (1 <? List.length urls)%nat; [|reflexivity].
  rewrite filterWithIndex_length. reflexivity.
Qed.

Lemma replaceAt_length (index : nat) (value : string) (l : list string) :
  List.length (replaceAt index value l) = List.length l.
Proof.
  revert index; induction l as [|x l IH]; intros [|index]; cbn; auto.
Qed.

Lemma updateImageUrl_in_range (index : nat) (value : string) (urls : list string) :
  index < List.length urls ->
  updateImageUrl index value urls = InRange (replaceAt index value urls).
Proof.
  intros H. unfold updateImageUrl.
  destruct (Nat.ltb_spec index (List.length urls)); [reflexivity | lia].
Qed.

Lemma handleAddProduct_length (products : list Product) (st : ScreenState) (w : World) :
  InBounds (imageUrls st) ->
  InBounds (imageUrls (snd (fst (handleAddProduct products st w)))).
Proof.
  intros H. unfold handleAddProduct.
  destruct (List.length _ =? 0)%nat; cbn; [exact H | unfold InBounds; cbn; lia].
Qed.

Lemma step_in_bounds (urls urls' : list string) :
  step urls urls' -> InBounds urls -> InBounds urls'.
Proof.
  unfold InBounds. intros Hstep H. destruct Hstep as [| index Hi | index value newUrls Hi Hw | products st w Hst].
  - rewrite addImageUrl_length.
    destruct (Nat.ltb_spec (List.length urls) 10); lia.
  - rewrite removeImageUrl_length.
    destruct (Nat.ltb_spec 1 (List.length urls)),
      (Nat.ltb_spec index (List.length urls)); cbn [andb]; lia.
  - rewrite updateImageUrl_in_range in Hw by exact Hi.
    injection Hw as <-. now rewrite replaceAt_length.
  - apply handleAddProduct_length. unfold InBounds. now rewrite Hst.
Qed.

(** C9.  The image-URL list of the add-product dialog has between 1 and 10
    entries in every state the dialog reaches from the initial single
    entry, each of [addImageUrl], [removeImageUrl], [updateImageUrl] at a
    rendered row and [handleAddProduct] keeping the length within these
    bounds; [addImageUrl] changes nothing at 10 entries and
    [removeImageUrl] nothing at 1. *)
Theorem imageUrls_length_bounds :
  (forall urls, reachable urls -> InBounds urls) /\
  (forall urls urls', InBounds urls -> step urls urls' -> InBounds urls') /\
  (forall urls, List.length urls = 10 -> addImageUrl urls = urls) /\
  (forall urls index, List.length urls = 1 -> removeImageUrl index urls = urls).
Proof.
  split; [|split; [|split]].
  - induction 1 as [|urls urls' _ IH Hstep].
    + unfold InBounds. cbn. lia.
    + exact (step_in_bounds urls urls' Hstep IH).
  - intros urls urls' H Hstep. exact (step_in_bounds urls urls' Hstep H).
  - intros urls H. unfold addImageUrl. now rewrite H.
  - intros urls index H. unfold removeImageUrl. now rewrite H.
Qed.

Lemma imageUrls_length_bounds_witness :
  InBounds [""%string; "https://cdn.example.com/pad.jpg"%string] /\
  removeImageUrl 0 [""%string] = [""%string].
Proof.
  split.
  - apply (proj1 imageUrls_length_bounds).
    apply (reach_step [""; ""]%string).
    + apply (reach_step [""%string]); [constructor | apply step_add].
    + apply (step_update _ 1 "https://cdn.example.com/pad.jpg"%string);
        [cbn; lia | reflexivity].
  - apply (proj2 (proj2 (proj2 imageUrls_length_bounds))). reflexivity.
Defined.

(** A write past the end is what the bound on the index of [step_update]
    keeps out: it grows the array beyond the ten entries. *)
Remark updateImageUrl_past_end :
  updateImageUrl 10 "x" [""%string] = PastEnd [""%string] 9 "x" /\
  writtenLength (updateImageUrl 10 "x" [""%string]) = 11.
Proof. split; reflexivity. Qed.

End ProductsSpec.

(** ** The Support screen: chat list, attachments and sending, beyond the
    stated claims *)

Module SupportViewSpec.

Import JS JSFacts Support SupportView.

Local Open Scope handler_scope.

(** *** Blank texts *)

(** A text of white space only. *)
Fixpoint blank (s : string) : bool :=
  match s with
  | EmptyString => true
  | String a s' => isWhiteSpace a && blank s'
  end.

Lemma trimEnd_empty (s : string) : trimEnd s = ""%string <-> blank s = true.
Proof.
  induction s as [|a s IH]; cbn; [tauto|].
  rewrite andb_true_iff. destruct (trimEnd s) as [|b r].
  - destruct (isWhiteSpace a).
    + split; [intros _; split; [reflexivity | now apply IH] | reflexivity].
    + split; [discriminate | intros [H _]; discriminate H].
  - split; [discriminate|]. intros [_ H]. apply IH in H. discriminate H.
Qed.

Lemma trimStart_empty (s : string) : trimStart s = ""%string <-> blank s = true.
Proof.
  induction s as [|a s IH]; cbn; [tauto|].
  destruct (isWhiteSpace a); cbn; [exact IH | split; discriminate].
Qed.

Lemma trimStart_head (s : string) :
  trimStart s = ""%string \/
  exists c r, trimStart s = String c r /\ isWhiteSpace c = false.
Proof.
  induction s as [|a s IH]; cbn; [now left|].
  destruct (isWhiteSpace a) eqn:E; [exact IH | right; now exists a, s].
Qed.

Lemma trim_empty (s : string) : trim s = ""%string <-> blank s = true.
Proof.
  unfold trim. split.
  - intros H. apply trimEnd_empty in H.
    destruct (trimStart_head s) as [E | [c [r [E Hc]]]].
    + now apply trimStart_empty.
    + rewrite E in H. cbn in H. rewrite Hc in H. discriminate H.
  - intros H. apply trimStart_empty in H. now rewrite H.
Qed.

(** *** The chat list *)

Lemma filter_id {A : Type} (f : A -> bool) (l : list A) :
  (forall x, In x l -> f x = true) -> filter f l = l.
Proof.
  induction l as [|x l IH]; intros H; cbn; [reflexivity|].
  rewrite (H x (or_introl eq_refl)), IH; [reflexivity|].
  intros y Hy. apply H. now right.
Qed.

Lemma includes_empty (s : string) : includes s "" = true.
Proof. rewrite includes_unfold. reflexivity. Qed.

(** X1.  The chat list is the list of chats filtered, so in their order
    and each as often as it is listed, by a test that a chat passes exactly
    when the search term occurs in its customer name with case ignored; with
    nothing in the search box it is the whole list of chats. *)
Theorem filteredChats_exact (chats : list SupportChat) (st : State) :
  (exists keep : SupportChat -> bool,
     filteredChats chats st = filter keep chats /\
     forall c, keep c = true
               <-> ProductsSpec.OccursIgnoringCase (searchTerm st) (customerName c)) /\
  (forall c, In c (filteredChats chats st)
             <-> In c chats /\
                 ProductsSpec.OccursIgnoringCase (searchTerm st) (customerName c)) /\
  (searchTerm st = ""%string -> filteredChats chats st = chats).
Proof.
  unfold filteredChats. split; [|split].
  - eexists. split; [reflexivity|]. intros c.
    apply ProductsSpec.includes_toLowerCase.
  - intros c. rewrite filter_In, ProductsSpec.includes_toLowerCase. reflexivity.
  - intros ->. apply filter_id. intros c _. apply includes_empty.
Qed.

Definition searching (term : string) : State :=
  {| selectedChat := None; message := ""; searchTerm := term; attachments := [];
     localMessages := []; showChatList := true |}.

Lemma filteredChats_exact_witness :
  filteredChats [SupportSpec.chat "c1" "Ravi"; SupportSpec.chat "c2" "Meena"]
                (searching "")
  = [SupportSpec.chat "c1" "Ravi"; SupportSpec.chat "c2" "Meena"].
Proof.
  apply (proj2 (proj2 (filteredChats_exact _ (searching "")))). reflexivity.
Defined.

(** *** Removing an attachment *)

Lemma state_eta (st : State) :
  {| selectedChat := selectedChat st; message := message st;
     searchTerm := searchTerm st; attachments := attachments st;
     localMessages := localMessages st; showChatList := showChatList st |} = st.
Proof. now destruct st. Qed.

(** X2.  [removeAttachment] filters the pending attachments, so in their
    order and each as often as it is listed, by a test that an attachment
    passes exactly when its id is not the given one, and leaves the rest of
    the state as it was; an id that no pending attachment has changes
    nothing. *)
Theorem removeAttachment_exact (id : string) (st : State) :
  (exists keep : Attachment -> bool,
     attachments (removeAttachment id st) = filter keep (attachments st) /\
     forall a, keep a = true <-> att_id a <> id) /\
  (forall a, In a (attachments (removeAttachment id st))
             <-> In a (attachments st) /\ att_id a <> id) /\
  message (removeAttachment id st) = message st /\
  localMessages (removeAttachment id st) = localMessages st /\
  selectedChat (removeAttachment id st) = selectedChat st /\
  searchTerm (removeAttachment id st) = searchTerm st /\
  showChatList (removeAttachment id st) = showChatList st /\
  ((forall a, In a (attachments st) -> att_id a <> id) ->
   removeAttachment id st = st).
Proof.
  split; [|split; [|repeat split]].
  - eexists. split; [reflexivity|]. intros a.
    rewrite negb_true_iff. apply String.eqb_neq.
  - intros a. cbn. rewrite filter_In, negb_true_iff.
    destruct (String.eqb_spec (att_id a) id); split; intros [H1 H2];
      (split; [exact H1 | congruence]).
  - intros H. unfold removeAttachment, setAttachments.
    rewrite filter_id; [apply state_eta|].
    intros a Ha. apply negb_true_iff, String.eqb_neq. now apply H.
Qed.

(** X3.  When the pending attachments have ids that differ from one
    another, [removeAttachment] with the id of one of them removes that one
    alone: the ones before it and after it stay, in their order. *)
Theorem removeAttachment_unique (st : State) (before after : list Attachment)
    (a : Attachment) :
  attachments st = before ++ a :: after ->
  NoDup (map att_id (attachments st)) ->
  attachments (removeAttachment (att_id a) st) = before ++ after.
Proof.
  intros E Hnd. cbn. rewrite E in *. clear E.
  rewrite map_app in Hnd. cbn [map] in Hnd.
  pose proof (NoDup_remove_2 _ _ _ Hnd) as Hnot.
  rewrite filter_app. cbn [filter]. rewrite String.eqb_refl. cbn [negb].
  rewrite !filter_id; [reflexivity | |].
  - intros x Hx. apply negb_true_iff, String.eqb_neq. intros Heq.
    apply Hnot, in_or_app. right. rewrite <- Heq. now apply in_map.
  - intros x Hx. apply negb_true_iff, String.eqb_neq. intros Heq.
    apply Hnot, in_or_app. left. rewrite <- Heq. now apply in_map.
Qed.

Definition attachmentOf (id' name' : string) : Attachment :=
  {| att_id := id'; att_name := name'; att_type := image;
     att_url := "blob:admin/0"; att_size := "5.0 KB" |}.

Definition pending (l : list Attachment) : State :=
  {| selectedChat := None; message := "  "; searchTerm := ""; attachments := l;
     localMessages := []; showChatList := false |}.

Lemma removeAttachment_exact_witness :
  removeAttachment "a9" (pending [attachmentOf "a1" "pad.png"])
  = pending [attachmentOf "a1" "pad.png"].
Proof.
  apply (proj2 (proj2 (proj2 (proj2 (proj2 (proj2 (proj2
           (removeAttachment_exact "a9" _)))))))).
  intros a [<- | []]. discriminate.
Defined.

Lemma removeAttachment_unique_witness :
  attachments
    (removeAttachment "a2"
       (pending [attachmentOf "a1" "pad.png"; attachmentOf "a2" "disc.png";
                 attachmentOf "a3" "hose.png"]))
  = [attachmentOf "a1" "pad.png"; attachmentOf "a3" "hose.png"].
Proof.
  apply (removeAttachment_unique
           (pending [attachmentOf "a1" "pad.png"; attachmentOf "a2" "disc.png";
                     attachmentOf "a3" "hose.png"])
           [attachmentOf "a1" "pad.png"] [attachmentOf "a3" "hose.png"]
           (attachmentOf "a2" "disc.png")); [reflexivity|].
  cbn. repeat constructor; cbn; intuition discriminate.
Defined.

(** *** Sending *)

Lemma sendDisabled_spec (st : State) :
  sendDisabled st = true <-> blank (message st) = true /\ attachments st = [].
Proof.
  unfold sendDisabled.
  rewrite andb_true_iff, String.eqb_eq, trim_empty, Nat.eqb_eq, length_zero_iff_nil.
  reflexivity.
Qed.

(** What a send that goes through does to the state and to the world. *)
Lemma handleSendMessage_run (browser : Browser) (st : State) (w : World) :
  sendDisabled st = false ->
  exists m,
    fst (handleSendMessage browser st w)
    = {| selectedChat := selectedChat st; message := "";
         searchTerm := searchTerm st; attachments := [];
         localMessages := localMessages st ++ [m];
         showChatList := showChatList st |} /\
    msg_sender m = "admin"%string /\
    msg_text m = message st /\
    msg_attachments m
    = (if (0 <? List.length (attachments st))%nat then Some (attachments st) else None) /\
    toasts (snd (handleSendMessage browser st w))
    = toasts w ++ [toast_success "Message sent"].
Proof.
  intros H. unfold sendDisabled in H. unfold handleSendMessage. rewrite H.
  rewrite !bind_run. eexists. cbn. repeat split.
Qed.

(** X4.  With at least one pending attachment [handleSendMessage] sends
    whatever the draft text is, a blank one too: it appends one message from
    "admin" with the text as typed and the pending attachments, empties the
    draft and the pending attachments and shows "Message sent". *)
Theorem handleSendMessage_with_attachments (browser : Browser) (st : State) (w : World) :
  attachments st <> [] ->
  let r := handleSendMessage browser st w in
  exists m,
    localMessages (fst r) = localMessages st ++ [m] /\
    msg_sender m = "admin"%string /\
    msg_text m = message st /\
    msg_attachments m = Some (attachments st) /\
    message (fst r) = ""%string /\
    attachments (fst r) = [] /\
    toasts (snd r) = toasts w ++ [toast_success "Message sent"].
Proof.
  intros Hatt. cbv zeta.
  assert (Hen : sendDisabled st = false).
  { destruct (sendDisabled st) eqn:E; [|reflexivity].
    apply sendDisabled_spec in E. now destruct E. }
  destruct (handleSendMessage_run browser st w Hen) as [m [E [H1 [H2 [H3 H4]]]]].
  exists m. rewrite E. cbn. repeat split; try assumption.
  rewrite H3. destruct (attachments st); [contradiction | reflexivity].
Qed.

Lemma handleSendMessage_with_attachments_witness :
  let r := handleSendMessage SupportSpec.quietBrowser
             (pending [attachmentOf "a1" "pad.png"]) SupportSpec.freshWorld in
  exists m,
    localMessages (fst r) = [m] /\
    msg_sender m = "admin"%string /\
    msg_text m = "  "%string /\
    msg_attachments m = Some [attachmentOf "a1" "pad.png"] /\
    message (fst r) = ""%string /\
    attachments (fst r) = [] /\
    toasts (snd r) = [toast_success "Message sent"].
Proof.
  apply (handleSendMessage_with_attachments SupportSpec.quietBrowser
           (pending [attachmentOf "a1" "pad.png"]) SupportSpec.freshWorld).
  discriminate.
Defined.

(** X5.  The send button is disabled exactly when the draft is white space
    only and nothing is attached.  In that state [handleSendMessage] and the
    [onKeyDown] handler of the input, whatever the key and with or without
    Shift, leave state and world as they are; in every other state
    [handleSendMessage] adds exactly one local message and shows
    "Message sent". *)
Theorem send_button_agrees (browser : Browser) (st : State) (w : World) :
  (sendDisabled st = true <-> blank (message st) = true /\ attachments st = []) /\
  (sendDisabled st = true ->
   handleSendMessage browser st w = (st, w) /\
   forall key shiftKey, handleKeyDown browser key shiftKey st w = (st, w)) /\
  (sendDisabled st = false ->
   List.length (localMessages (fst (handleSendMessage browser st w)))
   = S (List.length (localMessages st)) /\
   toasts (snd (handleSendMessage browser st w))
   = toasts w ++ [toast_success "Message sent"]).
Proof.
  split; [apply sendDisabled_spec | split].
  - intros H.
    assert (E : handleSendMessage browser st w = (st, w)).
    { unfold sendDisabled in H. unfold handleSendMessage. now rewrite H. }
    split; [exact E|]. intros key shiftKey. unfold handleKeyDown.
    destruct (String.eqb key "Enter" && negb shiftKey); [exact E | reflexivity].
  - intros H.
    destruct (handleSendMessage_run browser st w H) as [m [E [_ [_ [_ Ht]]]]].
    rewrite E. cbn. rewrite length_app. cbn. split; [lia | exact Ht].
Qed.

Lemma send_button_agrees_witness :
  handleSendMessage SupportSpec.quietBrowser SupportSpec.blankDraft SupportSpec.freshWorld
  = (SupportSpec.blankDraft, SupportSpec.freshWorld) /\
  toasts (snd (handleSendMessage SupportSpec.quietBrowser SupportSpec.greeting
                 SupportSpec.freshWorld))
  = [toast_success "Message sent"].
Proof.
  split.
  - apply (proj1 (proj2 (send_button_agrees SupportSpec.quietBrowser
                           SupportSpec.blankDraft SupportSpec.freshWorld))).
    reflexivity.
  - apply (proj2 (proj2 (send_button_agrees SupportSpec.quietBrowser
                           SupportSpec.greeting SupportSpec.freshWorld))).
    reflexivity.
Defined.

(** X6.  A message that is sent while a chat is selected shows at the end
    of the messages on display when that chat has the id of the first chat
    of the list, and does not show at all when it has another id. *)
Theorem sent_message_display (browser : Browser) (chats : list SupportChat)
    (st : State) (w : World) (c : SupportChat) :
  selectedChat st = Some c ->
  sendDisabled st = false ->
  let st' := fst (handleSendMessage browser st w) in
  exists m,
    msg_sender m = "admin"%string /\
    msg_text m = message st /\
    (SupportSpec.FirstChat chats c ->
     allMessages chats st' = allMessages chats st ++ [m]) /\
    (~ SupportSpec.FirstChat chats c ->
     allMessages chats st' = allMessages chats st).
Proof.
  intros Hsel Hen. cbv zeta.
  destruct (handleSendMessage_run browser st w Hen) as [m [E [H1 [H2 _]]]].
  exists m. rewrite E. unfold allMessages. cbn [selectedChat localMessages].
  rewrite Hsel, !SupportSpec.filter_const.
  split; [exact H1 | split; [exact H2 | split]].
  - intros H. apply SupportSpec.sameId_first in H. rewrite H. apply app_assoc.
  - intros H. destruct (sameId (Some c) (hd_error chats)) eqn:Eid; [|reflexivity].
    apply SupportSpec.sameId_first in Eid. contradiction.
Qed.

Definition drafting (c : SupportChat) : State :=
  {| selectedChat := Some c; message := "Yes, 8 left"; searchTerm := "";
     attachments := []; localMessages := []; showChatList := false |}.

Lemma sent_message_display_witness :
  let chats := [SupportSpec.chat "c1" "Ravi"; SupportSpec.chat "c2" "Meena"] in
  allMessages chats
    (fst (handleSendMessage SupportSpec.quietBrowser
            (drafting (SupportSpec.chat "c2" "Meena")) SupportSpec.freshWorld))
  = [SupportSpec.hello].
Proof.
  cbv zeta.
  destruct (sent_message_display SupportSpec.quietBrowser
              [SupportSpec.chat "c1" "Ravi"; SupportSpec.chat "c2" "Meena"]
              (drafting (SupportSpec.chat "c2" "Meena")) SupportSpec.freshWorld
              (SupportSpec.chat "c2" "Meena") eq_refl eq_refl)
    as [m [_ [_ [_ H]]]].
  rewrite H; [reflexivity|].
  intros F. apply SupportSpec.sameId_first in F. discriminate F.
Defined.

(** X7.  The local messages belong to no chat: a message sent under any
    selection is on display, after the messages of the first chat and the
    earlier local messages, as soon as the first chat of the list is
    selected. *)
Theorem sent_message_shows_in_first_chat (browser : Browser)
    (first : SupportChat) (others : list SupportChat) (st : State) (w : World) :
  sendDisabled st = false ->
  let st' := handleSelectChat (Some first) (fst (handleSendMessage browser st w)) in
  exists m,
    msg_sender m = "admin"%string /\
    msg_text m = message st /\
    allMessages (first :: others) st'
    = map withoutAttachments (messages first) ++ localMessages st ++ [m].
Proof.
  intros Hen. cbv zeta.
  destruct (handleSendMessage_run browser st w Hen) as [m [E [H1 [H2 _]]]].
  exists m. rewrite E. unfold allMessages. cbn.
  rewrite String.eqb_refl, SupportSpec.filter_const.
  split; [exact H1 | split; [exact H2 | reflexivity]].
Qed.

Lemma sent_message_shows_in_first_chat_witness :
  exists m,
    msg_sender m = "admin"%string /\
    msg_text m = "Yes, 8 left"%string /\
    allMessages [SupportSpec.chat "c1" "Ravi"; SupportSpec.chat "c2" "Meena"]
      (handleSelectChat (Some (SupportSpec.chat "c1" "Ravi"))
         (fst (handleSendMessage SupportSpec.quietBrowser
                 (drafting (SupportSpec.chat "c2" "Meena")) SupportSpec.freshWorld)))
    = [SupportSpec.hello; m].
Proof.
  apply (sent_message_shows_in_first_chat SupportSpec.quietBrowser
           (SupportSpec.chat "c1" "Ravi") [SupportSpec.chat "c2" "Meena"]
           (drafting (SupportSpec.chat "c2" "Meena")) SupportSpec.freshWorld).
  reflexivity.
Defined.

(** *** Selecting files *)

(** How many answers of each source of the browser were consumed. *)
Definition counters (w : World) : nat * nat * nat :=
  (clockReads w, randomReads w, urlsCreated w).

Definition consume (n : nat) (c : nat * nat * nat) : nat * nat * nat :=
  let '(clock, random, urls) := c in (clock + n, random + n, urls + n).

Section Select.

Variable browser : Browser.

Lemma attachFile_world (f : File) (acc : list Attachment) (w : World) :
  fileInput (snd (attachFile browser f acc w)) = fileInput w /\
  counters (snd (attachFile browser f acc w))
  = consume (if SupportSpec.withinLimit f then 1 else 0) (counters w).
Proof.
  unfold attachFile, SupportSpec.withinLimit, counters, consume.
  change (10 * 1024 * 1024)%N with 10485760%N.
  rewrite N.ltb_antisym. destruct (file_size f <=? 10485760)%N; cbn.
  - split; [reflexivity | f_equal; [f_equal|]; lia].
  - split; [reflexivity | f_equal; [f_equal|]; lia].
Qed.

Lemma forEachFile_world (files : list File) :
  forall (acc : list Attachment) (w : World),
  fileInput (snd (forEachFile browser files acc w)) = fileInput w /\
  counters (snd (forEachFile browser files acc w))
  = consume (List.length (filter SupportSpec.withinLimit files)) (counters w).
Proof.
  induction files as [|f files IH]; intros acc w.
  - cbn. split; [reflexivity|]. unfold consume, counters.
    f_equal; [f_equal|]; lia.
  - cbn [forEachFile filter]. rewrite bind_run.
    destruct (IH (fst (attachFile browser f acc w))
                 (snd (attachFile browser f acc w))) as [H1 H2].
    destruct (attachFile_world f acc w) as [H3 H4].
    rewrite H1, H2, H3, H4. split; [reflexivity|].
    unfold consume. destruct (counters w) as [[c r] u].
    destruct (SupportSpec.withinLimit f); cbn [List.length];
      (f_equal; [f_equal|]; lia).
Qed.

Lemma attachFile_acc (f : File) (acc : list Attachment) (w : World) :
  fst (attachFile browser f acc w) = acc ++ fst (attachFile browser f [] w) /\
  snd (attachFile browser f acc w) = snd (attachFile browser f [] w).
Proof.
  unfold attachFile. destruct (10 * 1024 * 1024 <? file_size f)%N; cbn.
  - now rewrite app_nil_r.
  - split; reflexivity.
Qed.

Lemma forEachFile_acc (files : list File) :
  forall (acc : list Attachment) (w : World),
  fst (forEachFile browser files acc w) = acc ++ fst (forEachFile browser files [] w) /\
  snd (forEachFile browser files acc w) = snd (forEachFile browser files [] w).
Proof.
  induction files as [|f files IH]; intros acc w.
  - cbn. now rewrite app_nil_r.
  - cbn [forEachFile]. rewrite !bind_run.
    destruct (attachFile_acc f acc w) as [H1 H2]. rewrite H1, H2.
    destruct (IH (acc ++ fst (attachFile browser f [] w))
                 (snd (attachFile browser f [] w))) as [H3 H4].
    destruct (IH (fst (attachFile browser f [] w))
                 (snd (attachFile browser f [] w))) as [H5 H6].
    rewrite H3, H4, H5, H6, app_assoc. split; reflexivity.
Qed.

Lemma forEachFile_app (files1 files2 : list File) :
  forall (acc : list Attachment) (w : World),
  forEachFile browser (files1 ++ files2) acc w
  = forEachFile browser files2 (fst (forEachFile browser files1 acc w))
                               (snd (forEachFile browser files1 acc w)).
Proof.
  induction files1 as [|f files1 IH]; intros acc w; [reflexivity|].
  cbn [app forEachFile]. rewrite !bind_run. apply IH.
Qed.

Lemma attachFile_counters (f : File) (acc : list Attachment) (w1 w2 : World) :
  counters w1 = counters w2 ->
  fst (attachFile browser f acc w1) = fst (attachFile browser f acc w2) /\
  counters (snd (attachFile browser f acc w1))
  = counters (snd (attachFile browser f acc w2)).
Proof.
  unfold counters. intros H. injection H as Hc Hr Hu.
  unfold attachFile. destruct (10 * 1024 * 1024 <? file_size f)%N; cbn.
  - now rewrite Hc, Hr, Hu.
  - now rewrite Hc, Hr, Hu.
Qed.

Lemma forEachFile_counters (files : list File) :
  forall (acc : list Attachment) (w1 w2 : World),
  counters w1 = counters w2 ->
  fst (forEachFile browser files acc w1) = fst (forEachFile browser files acc w2).
Proof.
  induction files as [|f files IH]; intros acc w1 w2 H; [reflexivity|].
  cbn [forEachFile]. rewrite !bind_run.
  destruct (attachFile_counters f acc w1 w2 H) as [H1 H2].
  rewrite H1. now apply IH.
Qed.

Lemma handleFileSelect_result (files : list File) (st : State) (w : World) :
  attachments (fst (handleFileSelect browser (Some files) st w))
  = attachments st ++ fst (forEachFile browser files [] w) /\
  counters (snd (handleFileSelect browser (Some files) st w))
  = counters (snd (forEachFile browser files [] w)) /\
  fileInput (snd (handleFileSelect browser (Some files) st w))
  = match fileInput (snd (forEachFile browser files [] w)) with
    | Some _ => Some ""%string
    | None => None
    end.
Proof.
  cbn [handleFileSelect]. rewrite !bind_run. repeat split.
Qed.

(** X8.  A selection that the browser reports as null leaves state and world
    as they are.  Every other selection, the empty one too, leaves the
    attachments already pending in front of the new ones and empties the
    value of the file input when the input is mounted, so that the same file
    can be selected again. *)
Theorem handleFileSelect_edges (files : list File) (st : State) (w : World) :
  handleFileSelect browser None st w = (st, w) /\
  fileInput (snd (handleFileSelect browser (Some files) st w))
  = match fileInput w with Some _ => Some ""%string | None => None end /\
  firstn (List.length (attachments st))
         (attachments (fst (handleFileSelect browser (Some files) st w)))
  = attachments st /\
  (files = [] ->
   attachments (fst (handleFileSelect browser (Some files) st w)) = attachments st /\
   toasts (snd (handleFileSelect browser (Some files) st w))
   = toasts w ++ [toast_success "0 file(s) attached"]).
Proof.
  destruct (handleFileSelect_result files st w) as [Ha [_ Hf]].
  destruct (forEachFile_world files [] w) as [Hi _].
  split; [reflexivity | split; [|split]].
  - now rewrite Hf, Hi.
  - rewrite Ha, firstn_app, Nat.sub_diag, firstn_all. cbn. apply app_nil_r.
  - intros ->. cbn. now rewrite app_nil_r.
Qed.

(** X9.  [handleFileSelect] asks the browser for one object URL, one clock
    reading and one random id for each file of at most 10 MiB and for
    nothing for a larger file. *)
Theorem handleFileSelect_one_url_per_attachment (files : list File) (st : State)
    (w : World) :
  let w' := snd (handleFileSelect browser (Some files) st w) in
  let accepted := List.length (filter SupportSpec.withinLimit files) in
  urlsCreated w' = urlsCreated w + accepted /\
  clockReads w' = clockReads w + accepted /\
  randomReads w' = randomReads w + accepted.
Proof.
  cbv zeta.
  destruct (handleFileSelect_result files st w) as [_ [Hc _]].
  destruct (forEachFile_world files [] w) as [_ Hw].
  rewrite Hw in Hc. unfold counters, consume in Hc.
  pose proof (f_equal snd Hc) as Hu.
  pose proof (f_equal (fun c => fst (fst c)) Hc) as Hk.
  pose proof (f_equal (fun c => snd (fst c)) Hc) as Hr.
  cbn [fst snd] in Hu, Hk, Hr. repeat split; assumption.
Qed.

(** X10.  Selecting files in two goes gives the pending attachments that
    selecting all of them in one go gives, ids and URLs included. *)
Theorem handleFileSelect_twice (files1 files2 : list File) (st : State) (w : World) :
  let r1 := handleFileSelect browser (Some files1) st w in
  attachments (fst (handleFileSelect browser (Some files2) (fst r1) (snd r1)))
  = attachments (fst (handleFileSelect browser (Some (files1 ++ files2)) st w)).
Proof.
  cbv zeta.
  destruct (handleFileSelect_result files1 st w) as [Ha1 [Hc1 _]].
  destruct (handleFileSelect_result files2
              (fst (handleFileSelect browser (Some files1) st w))
              (snd (handleFileSelect browser (Some files1) st w))) as [Ha2 _].
  destruct (handleFileSelect_result (files1 ++ files2) st w) as [Ha _].
  rewrite Ha2, Ha1, Ha, forEachFile_app.
  rewrite (proj1 (forEachFile_acc files2 (fst (forEachFile browser files1 [] w)) _)).
  rewrite (forEachFile_counters files2 [] _ _ Hc1).
  now rewrite app_assoc.
Qed.

End Select.

Lemma handleFileSelect_edges_witness :
  toasts (snd (handleFileSelect SupportSpec.quietBrowser (Some []) SupportSpec.idle
                 SupportSpec.freshWorld))
  = [toast_success "0 file(s) attached"].
Proof.
  apply (proj2 (proj2 (proj2 (handleFileSelect_edges SupportSpec.quietBrowser []
                                SupportSpec.idle SupportSpec.freshWorld)))).
  reflexivity.
Defined.

(** *** Avatars *)

Lemma split_cons (s : string) : exists piece pieces, split s = piece :: pieces.
Proof.
  induction s as [|c s [piece [pieces IH]]]; cbn.
  - now exists ""%string, [].
  - destruct (Ascii.eqb c " "); [now exists ""%string, (split s)|].
    rewrite IH. now exists (String c piece), pieces.
Qed.

Lemma split_app_space (a b : string) :
  split (a ++ String " " b) = split a ++ split b.
Proof.
  induction a as [|c a IH]; cbn; [reflexivity|].
  rewrite IH. destruct (Ascii.eqb c " "); [reflexivity|].
  destruct (split_cons a) as [piece [pieces ->]]. reflexivity.
Qed.

Lemma join_app (l1 l2 : list (option ascii)) :
  join (l1 ++ l2) = (join l1 ++ join l2)%string.
Proof.
  induction l1 as [|[c|] l1 IH]; cbn; [reflexivity | now rewrite IH | exact IH].
Qed.

(** A text without a space in it. *)
Fixpoint spaceless (s : string) : bool :=
  match s with
  | EmptyString => true
  | String c s' => negb (Ascii.eqb c " ") && spaceless s'
  end.

Lemma split_spaceless (s : string) : spaceless s = true -> split s = [s].
Proof.
  induction s as [|c s IH]; cbn; [reflexivity|].
  intros H. apply andb_true_iff in H. destruct H as [Hc Hs].
  apply negb_true_iff in Hc. now rewrite Hc, IH.
Qed.

(** X11.  The avatar text of a customer name is made of the first character
    of each word: the initials of two texts with a space between them are
    the initials of the first followed by those of the second, a word
    without a space gives its first character, and the empty text gives
    nothing, so that spaces in a row or at the ends add nothing. *)
Theorem initials_of_words (a b : string) (c : ascii) :
  initials (a ++ String " " b) = (initials a ++ initials b)%string /\
  (spaceless (String c a) = true -> initials (String c a) = String c "") /\
  initials "" = ""%string.
Proof.
  unfold initials. split; [|split].
  - now rewrite split_app_space, map_app, join_app.
  - intros H. now rewrite split_spaceless.
  - reflexivity.
Qed.

Lemma initials_of_words_witness :
  initials "Ravi  Kumar" = (initials "Ravi" ++ initials " Kumar")%string /\
  initials "Meena" = "M"%string.
Proof.
  split.
  - exact (proj1 (initials_of_words "Ravi" " Kumar" "R")).
  - apply (proj1 (proj2 (initials_of_words "eena" "" "M"))). reflexivity.
Defined.

End SupportViewSpec.

(** ** The Products screen: categories, search and the dialog, beyond the
    stated claims *)

Module ProductsViewSpec.

Import JS JSFacts Products ProductsView.

Local Open Scope handler_scope.

(** *** The categories of the filter *)

Lemma existsb_eqb_In (v : string) (seen : list string) :
  existsb (String.eqb v) seen = true <-> In v seen.
Proof.
  rewrite existsb_exists. split.
  - intros [x [Hin Heq]]. apply String.eqb_eq in Heq. now subst.
  - intros H. exists v. split; [exact H | apply String.eqb_refl].
Qed.

Lemma setFrom_spec (values : list string) :
  forall seen, NoDup seen ->
  NoDup (setFrom values seen) /\
  forall x, In x (setFrom values seen) <-> In x seen \/ In x values.
Proof.
  induction values as [|v values IH]; intros seen Hnd; cbn [setFrom].
  - split; [exact Hnd | intros x; cbn; tauto].
  - destruct (existsb (String.eqb v) seen) eqn:E.
    + apply existsb_eqb_In in E. destruct (IH seen Hnd) as [H1 H2].
      split; [exact H1|]. intros x. rewrite H2. cbn.
      split; [tauto | intros [H | [<- | H]]; tauto].
    + assert (Hv : ~ In v seen).
      { intros H. apply existsb_eqb_In in H. congruence. }
      assert (Hnd' : NoDup (seen ++ [v])).
      { apply NoDup_app; [exact Hnd | repeat constructor; intros [] |].
        intros x Hx [<- | []]. contradiction. }
      destruct (IH (seen ++ [v]) Hnd') as [H1 H2].
      split; [exact H1|]. intros x. rewrite H2, in_app_iff. cbn. tauto.
Qed.

Lemma setFrom_distinct (values : list string) :
  forall seen, NoDup values -> (forall x, In x values -> ~ In x seen) ->
  setFrom values seen = seen ++ values.
Proof.
  induction values as [|v values IH]; intros seen Hnd Hfresh; cbn [setFrom].
  - now rewrite app_nil_r.
  - destruct (existsb (String.eqb v) seen) eqn:E.
    + apply existsb_eqb_In in E. exfalso. apply (Hfresh v); [now left | exact E].
    + inversion Hnd as [|v' values' Hv Hnd']; subst.
      rewrite IH; [now rewrite <- app_assoc | exact Hnd' |].
      intros x Hx Hin. apply in_app_iff in Hin. destruct Hin as [Hin | [<- | []]].
      * apply (Hfresh x); [now right | exact Hin].
      * contradiction.
Qed.

(** X12.  The categories offered by the filter and by the dialog are the
    categories of the products, each of them once; when no two products
    share a category they come in the order of the products. *)
Theorem categories_exact (products : list Product) :
  NoDup (categories products) /\
  (forall c, In c (categories products)
             <-> exists p, In p products /\ category p = c) /\
  (NoDup (map category products) -> categories products = map category products).
Proof.
  unfold categories.
  destruct (setFrom_spec (map category products) [] (NoDup_nil _)) as [H1 H2].
  split; [exact H1 | split].
  - intros c. rewrite H2, in_map_iff. split.
    + intros [[] | [p [Hp Hin]]]. now exists p.
    + intros [p [Hin Hp]]. right. now exists p.
  - intros Hnd. now rewrite setFrom_distinct.
Qed.

Lemma categories_exact_witness :
  categories [ProductsSpec.brakePad; ProductsSpec.oilFilter] = ["Brakes"; "Engine"]%string.
Proof.
  apply (proj2 (proj2 (categories_exact [ProductsSpec.brakePad; ProductsSpec.oilFilter]))).
  cbn. repeat constructor; cbn; intuition discriminate.
Defined.

(** *** Search and filter *)

Lemma matchesSearch_empty (p : Product) : matchesSearch "" p = true.
Proof. unfold matchesSearch. cbn [toLowerCase]. now rewrite SupportViewSpec.includes_empty. Qed.

(** X13.  Every category that the filter offers has something to show:
    with an empty search box, choosing it leaves at least one product in the
    table, and every product left is of that category. *)
Theorem offered_category_not_empty (products : list Product) (c : string) :
  In c (categories products) ->
  filteredProducts products "" c <> [] /\
  (c <> "all"%string ->
   forall p, In p (filteredProducts products "" c) -> category p = c).
Proof.
  intros Hc. unfold categories in Hc.
  apply (proj2 (setFrom_spec (map category products) [] (NoDup_nil _))) in Hc.
  destruct Hc as [[] | Hc]. apply in_map_iff in Hc. destruct Hc as [p [Hp Hin]].
  split.
  - assert (H : In p (filteredProducts products "" c)).
    { apply filter_In. split; [exact Hin|].
      rewrite matchesSearch_empty. unfold matchesCategory.
      rewrite Hp, String.eqb_refl. apply orb_true_r. }
    intros E. rewrite E in H. exact H.
  - intros Hall q Hq. apply filter_In in Hq. destruct Hq as [_ Hq].
    apply andb_true_iff in Hq. destruct Hq as [_ Hq].
    unfold matchesCategory in Hq. apply orb_true_iff in Hq.
    destruct Hq as [Hq | Hq]; apply String.eqb_eq in Hq; [contradiction | exact Hq].
Qed.

Lemma offered_category_not_empty_witness :
  filteredProducts [ProductsSpec.brakePad; ProductsSpec.oilFilter] "" "Engine" <> [].
Proof.
  apply (offered_category_not_empty [ProductsSpec.brakePad; ProductsSpec.oilFilter]).
  right. now left.
Defined.

(** X14.  The search does not see the case of the letters of the search
    term: two terms that are equal up to case give the same table. *)
Theorem search_term_case (products : list Product) (term term' categoryFilter : string) :
  ProductsSpec.EqualIgnoringCase term term' ->
  filteredProducts products term categoryFilter
  = filteredProducts products term' categoryFilter.
Proof.
  intros H. apply ProductsSpec.toLowerCase_eq in H.
  unfold filteredProducts, matchesSearch. now rewrite H.
Qed.

Lemma search_term_case_witness :
  filteredProducts [ProductsSpec.brakePad; ProductsSpec.oilFilter] "BRAKE" "all"
  = filteredProducts [ProductsSpec.brakePad; ProductsSpec.oilFilter] "brake" "all".
Proof.
  apply search_term_case. apply ProductsSpec.toLowerCase_eq. reflexivity.
Defined.

Lemma filter_length_le {A : Type} (f : A -> bool) (l : list A) :
  List.length (filter f l) <= List.length l.
Proof.
  induction l as [|x l IH]; cbn; [lia|]. destruct (f x); cbn; lia.
Qed.

Lemma filter_all {A : Type} (f : A -> bool) (l : list A) :
  (forall x, In x l -> f x = true) -> filter f l = l.
Proof.
  induction l as [|x l IH]; intros H; cbn; [reflexivity|].
  rewrite (H x (or_introl eq_refl)), IH; [reflexivity|].
  intros y Hy. apply H. now right.
Qed.

(** X15.  In "Showing n of m products", n is never above m; with an empty
    search box and the filter "all" the table is the whole product list; and
    the table under a category filter is the table under "all" with the
    products of the other categories taken out. *)
Theorem results_count (products : list Product) (st : ScreenState) :
  fst (resultsCount products st) <= snd (resultsCount products st) /\
  filteredProducts products "" "all" = products /\
  filteredProducts products (searchTerm st) (categoryFilter st)
  = filter (matchesCategory (categoryFilter st))
           (filteredProducts products (searchTerm st) "all").
Proof.
  split; [apply filter_length_le | split].
  - apply filter_all. intros p _. now rewrite matchesSearch_empty.
  - unfold filteredProducts.
    induction products as [|p products IH]; cbn [filter]; [reflexivity|].
    replace (matchesCategory "all" p) with true by reflexivity.
    rewrite andb_true_r.
    destruct (matchesSearch (searchTerm st) p); cbn [andb filter]; [|exact IH].
    destruct (matchesCategory (categoryFilter st) p); now rewrite IH.
Qed.

(** X16.  The line "... products low on stock" is rendered exactly when
    some product of the table has a stock below 10; the number it gives is
    the number of these products, at least 1 and at most the size of the
    table. *)
Theorem lowStockWarning_count (filtered : list Product) :
  (lowStockWarning filtered = None
   <-> forall p, In p filtered -> (10 <= stock p)%N) /\
  (forall n, lowStockWarning filtered = Some n ->
             n = List.length (filter (fun p => (stock p <? 10)%N) filtered) /\
             1 <= n <= List.length filtered).
Proof.
  unfold lowStockWarning.
  destruct (existsb (fun p => (stock p <? 10)%N) filtered) eqn:E.
  - split.
    + split; [discriminate|]. intros H. exfalso.
      apply existsb_exists in E. destruct E as [p [Hin Hp]].
      apply N.ltb_lt in Hp. specialize (H p Hin). lia.
    + intros n Hn. injection Hn as <-. split; [reflexivity|].
      split; [|apply filter_length_le].
      apply existsb_exists in E. destruct E as [p [Hin Hp]].
      assert (H : In p (filter (fun p => (stock p <? 10)%N) filtered))
        by (apply filter_In; now split).
      destruct (filter _ filtered); [contradiction | cbn; lia].
  - split; [|discriminate]. split; [|reflexivity].
    intros _ p Hin. apply N.ltb_ge.
    destruct (stock p <? 10)%N eqn:Hp; [|reflexivity].
    assert (X : existsb (fun p => (stock p <? 10)%N) filtered = true)
      by (apply existsb_exists; now exists p).
    congruence.
Qed.

Lemma lowStockWarning_count_witness :
  lowStockWarning [ProductsSpec.brakePad; ProductsSpec.oilFilter] = Some 2 /\
  lowStockWarning [] = None.
Proof.
  split.
  - destruct (lowStockWarning [ProductsSpec.brakePad; ProductsSpec.oilFilter]) as [n|] eqn:E.
    + destruct (proj2 (lowStockWarning_count _) n E) as [-> _]. reflexivity.
    + discriminate E.
  - apply (proj1 (lowStockWarning_count [])). intros p [].
Defined.

(** X17.  The status badge always carries the status text itself, and the
    "destructive" look is that of "Out of Stock" alone. *)
Theorem getStatusBadge_text (status : string) :
  badge_text (getStatusBadge status) = status /\
  (badge_variant (getStatusBadge status) = Some "destructive"%string
   <-> status = "Out of Stock"%string).
Proof.
  unfold getStatusBadge.
  destruct (String.eqb_spec status "In Stock") as [-> | H1];
    [split; [reflexivity | split; discriminate]|].
  destruct (String.eqb_spec status "Low Stock") as [-> | H2];
    [split; [reflexivity | split; discriminate]|].
  destruct (String.eqb_spec status "Out of Stock") as [-> | H3];
    [split; [reflexivity | split; reflexivity]|].
  split; [reflexivity | split; [discriminate | contradiction]].
Qed.

(** *** The image-URL rows of the dialog *)

Lemma filterWithIndex_at {A : Type} (index : nat) (l : list A) :
  forall i, i <= index -> index < i + List.length l ->
  filterWithIndex (fun _ j => negb (j =? index)%nat) i l
  = firstn (index - i) l ++ skipn (S (index - i)) l.
Proof.
  induction l as [|x l IH]; intros i Hle Hlt; cbn [List.length] in Hlt; [lia|].
  cbn [filterWithIndex]. destruct (Nat.eqb_spec i index) as [-> | Hne]; cbn [negb].
  - rewrite Nat.sub_diag. cbn. apply ProductsSpec.filterWithIndex_later. lia.
  - rewrite IH by lia.
    replace (index - i) with (S (index - S i)) by lia. reflexivity.
Qed.

Lemma filterWithIndex_beyond {A : Type} (index : nat) (l : list A) :
  forall i, i + List.length l <= index ->
  filterWithIndex (fun _ j => negb (j =? index)%nat) i l = l.
Proof.
  induction l as [|x l IH]; intros i H; cbn [List.length] in H; [reflexivity|].
  cbn [filterWithIndex]. destruct (Nat.eqb_spec i index); [lia|].
  cbn [negb]. rewrite IH by lia. reflexivity.
Qed.

(** X18.  [removeImageUrl] at a row of a list of more than one URL takes
    out the URL of that row and nothing else, the others keeping their
    order; at an index that is no row it changes nothing. *)
Theorem removeImageUrl_exact (index : nat) (urls : list string) :
  (1 < List.length urls -> index < List.length urls ->
   removeImageUrl index urls = firstn index urls ++ skipn (S index) urls) /\
  (List.length urls <= index -> removeImageUrl index urls = urls).
Proof.
  unfold removeImageUrl. split.
  - intros H1 Hi. destruct (Nat.ltb_spec 1 (List.length urls)); [|lia].
    rewrite filterWithIndex_at by lia. now rewrite Nat.sub_0_r.
  - intros H. destruct (1 <? List.length urls)%nat; [|reflexivity].
    apply filterWithIndex_beyond. lia.
Qed.

Lemma removeImageUrl_exact_witness :
  removeImageUrl 1 ["a.jpg"; "b.jpg"; "c.jpg"]%string = ["a.jpg"; "c.jpg"]%string /\
  removeImageUrl 3 ["a.jpg"; "b.jpg"; "c.jpg"]%string = ["a.jpg"; "b.jpg"; "c.jpg"]%string.
Proof.
  split.
  - apply (proj1 (removeImageUrl_exact 1 ["a.jpg"; "b.jpg"; "c.jpg"]%string)); cbn; lia.
  - apply (proj2 (removeImageUrl_exact 3 ["a.jpg"; "b.jpg"; "c.jpg"]%string)). cbn. lia.
Defined.

Lemma replaceAt_nth (index : nat) (value : string) (l : list string) :
  forall j,
  nth_error (replaceAt index value l) j
  = if (j =? index)%nat && (index <? List.length l)%nat then Some value
    else nth_error l j.
Proof.
  revert index; induction l as [|x l IH]; intros index j.
  - destruct index; cbn; rewrite andb_false_r; reflexivity.
  - destruct index as [|index], j as [|j]; cbn [replaceAt nth_error]; try reflexivity.
    rewrite IH. reflexivity.
Qed.

(** X19.  [updateImageUrl] at a row of the list puts the value in that row
    and leaves every other row and the number of rows as they were; at an
    index past the end it yields an array of [index + 1] entries instead. *)
Theorem updateImageUrl_exact (index : nat) (value : string) (urls : list string) :
  (index < List.length urls ->
   exists newUrls,
     updateImageUrl index value urls = InRange newUrls /\
     List.length newUrls = List.length urls /\
     nth_error newUrls index = Some value /\
     forall j, j <> index -> nth_error newUrls j = nth_error urls j) /\
  (List.length urls <= index ->
   writtenLength (updateImageUrl index value urls) = index + 1).
Proof.
  split.
  - intros H. exists (replaceAt index value urls).
    split; [now apply ProductsSpec.updateImageUrl_in_range|].
    split; [apply ProductsSpec.replaceAt_length|].
    split.
    + rewrite replaceAt_nth, Nat.eqb_refl.
      destruct (Nat.ltb_spec index (List.length urls)); [reflexivity | lia].
    + intros j Hj. rewrite replaceAt_nth.
      destruct (Nat.eqb_spec j index); [contradiction | reflexivity].
  - intros H. unfold updateImageUrl.
    destruct (Nat.ltb_spec index (List.length urls)); [lia|]. cbn. lia.
Qed.

Lemma updateImageUrl_exact_witness :
  exists newUrls,
    updateImageUrl 1 "b.jpg" [""; ""]%string = InRange newUrls /\
    List.length newUrls = 2 /\
    nth_error newUrls 1 = Some "b.jpg"%string /\
    forall j, j <> 1 -> nth_error newUrls j = nth_error [""; ""]%string j.
Proof.
  apply (proj1 (updateImageUrl_exact 1 "b.jpg" [""; ""]%string)). cbn. lia.
Defined.

(** X20.  Adding a row and removing it again gives back the list: on a list
    of 1 to 9 URLs, [removeImageUrl] at the last row after [addImageUrl] is
    the identity. *)
Theorem add_then_remove_last (urls : list string) :
  1 <= List.length urls < 10 ->
  removeImageUrl (List.length urls) (addImageUrl urls) = urls.
Proof.
  intros [H1 H10]. unfold addImageUrl.
  destruct (Nat.ltb_spec (List.length urls) 10); [|lia].
  rewrite (proj1 (removeImageUrl_exact (List.length urls) (urls ++ [""%string])));
    try (rewrite length_app; cbn; lia).
  rewrite firstn_app, Nat.sub_diag, firstn_all, skipn_app, skipn_all2 by lia.
  replace (S (List.length urls) - List.length urls) with 1 by lia.
  cbn. now rewrite !app_nil_r.
Qed.

Lemma add_then_remove_last_witness :
  removeImageUrl 2 (addImageUrl ["a.jpg"; "b.jpg"]%string) = ["a.jpg"; "b.jpg"]%string.
Proof.
  apply (add_then_remove_last ["a.jpg"; "b.jpg"]%string). cbn. lia.
Defined.

(** X21.  The two buttons of the image-URL rows are there exactly when
    their handlers do something: "Add Image" is disabled if and only if
    [addImageUrl] leaves the list as it is, and the rows have a remove
    button if and only if [removeImageUrl] at a row shortens the list, by
    one. *)
Theorem image_buttons_agree (urls : list string) (index : nat) :
  (addImageDisabled urls = true <-> addImageUrl urls = urls) /\
  (index < List.length urls ->
   (removeButtonRendered urls = true
    <-> S (List.length (removeImageUrl index urls)) = List.length urls) /\
   (removeButtonRendered urls = false <-> removeImageUrl index urls = urls)).
Proof.
  unfold addImageDisabled, removeButtonRendered. split.
  - unfold addImageUrl. rewrite Nat.leb_le.
    destruct (Nat.ltb_spec (List.length urls) 10) as [Hlt | Hge].
    + split; [lia|]. intros H. apply (f_equal (@List.length string)) in H.
      rewrite length_app in H. cbn in H. lia.
    + split; [reflexivity | intros _; exact Hge].
  - intros Hi.
    pose proof (ProductsSpec.removeImageUrl_length index urls) as Hlen.
    destruct (Nat.ltb_spec 1 (List.length urls)) as [H1 | H1],
      (Nat.ltb_spec index (List.length urls)) as [H2 | H2];
      cbn [andb] in Hlen; try lia.
    + split; split.
      * intros _. lia.
      * reflexivity.
      * discriminate.
      * intros H. rewrite H in Hlen. lia.
    + split; split.
      * discriminate.
      * intros H. lia.
      * intros _. unfold removeImageUrl.
        destruct (Nat.ltb_spec 1 (List.length urls)); [lia | reflexivity].
      * reflexivity.
Qed.

Lemma image_buttons_agree_witness :
  S (List.length (removeImageUrl 0 ["a.jpg"; "b.jpg"]%string)) = 2 /\
  removeImageUrl 0 [""%string] = [""%string].
Proof.
  split.
  - apply (proj1 (proj2 (image_buttons_agree ["a.jpg"; "b.jpg"]%string 0) ltac:(cbn; lia))).
    reflexivity.
  - apply (proj2 (proj2 (image_buttons_agree [""%string] 0) ltac:(cbn; lia))).
    reflexivity.
Defined.

(** *** Submitting the dialog *)


Lemma handleAddProduct_run (products : list Product) (st : ScreenState) (w : World) :
  handleAddProduct products st w
  = match filter truthyTrim (imageUrls st) with
    | [] => (products, st,
             snd (show (toast_error "Please add at least one product image") w))
    | _ :: _ => (products, setImageUrls [""%string] st,
                 snd (show (toast_success "Product added successfully") w))
    end.
Proof.
  unfold handleAddProduct. fold truthyTrim.
  destruct (filter truthyTrim (imageUrls st)); reflexivity.
Qed.



(** X23.  Pressing "Add Product" twice in a row always ends on the error:
    the first press either fails and keeps the list or succeeds and resets
    it to one empty entry, and in both cases the second press finds no
    usable image URL, shows the error and changes nothing. *)
Theorem submit_twice (products : list Product) (st : ScreenState) (w : World) :
  let r1 := handleAddProduct products st w in
  let r2 := handleAddProduct (fst (fst r1)) (snd (fst r1)) (snd r1) in
  fst r2 = fst r1 /\
  toasts (snd r2)
  = toasts (snd r1) ++ [toast_error "Please add at least one product image"].
Proof.
  cbv zeta. rewrite (handleAddProduct_run products st w).
  destruct (filter truthyTrim (imageUrls st)) eqn:E.
  - cbn [fst snd]. rewrite handleAddProduct_run, E. split; reflexivity.
  - cbn [fst snd]. rewrite handleAddProduct_run. split; reflexivity.
Qed.

End ProductsViewSpec.
